(** * IGM module orchestration: a shallow embedding of [igm/common.py]

    The development follows the Python source function by function:
    comment stripping of the relaxed JSON parameter file, the override of
    registered parameters, dynamic module loading with its working-directory
    fallback, validation of the lifecycle functions, and the expansion of
    declared dependencies.

    Effects are explicit.  A computation returns the trace of the
    observable calls it made ([importlib.import_module], [logging.info],
    [print]) together with either the exception it raised or its value. *)

From Stdlib Require Import String Ascii List NArith Lia Permutation.
From stdpp Require Import gmap strings list.

(** ** Python values *)

(** A Python [str] is a sequence of Unicode code points.  The parameter file
    text is kept at that level because [str.strip] is defined on Unicode
    white space; identifiers, keys and messages are plain strings. *)
Definition text := list N.

(** The values produced by [json.loads].  A number keeps its literal: no
    function below computes with it. *)
#[warnings="-register-all"]
Inductive json : Type :=
| JNull
| JBool (b : bool)
| JNum (literal : string)
| JStr (s : string)
| JArr (items : list json)
| JObj (members : list (string * json)).

(** A loaded module object: [repr(module)], the names [hasattr] answers for
    (other than [dependencies]) and the [dependencies] attribute when the
    module defines one.  [repr] shows the name a module was imported under,
    so two records are equal exactly when they stand for the same object,
    which is how a Python set compares modules. *)
Record Module : Type := mkModule {
  mod_repr : string;
  mod_attrs : list string;
  mod_dependencies : option (list string)
}.

#[global] Instance Module_eq_dec : EqDecision Module.
Proof. solve_decision. Defined.

(** The dictionary built by [get_modules_list]: exactly three keys. *)
Record modules_dict : Type := mkModulesDict {
  modules_preproc : list string;
  modules_process : list string;
  modules_postproc : list string
}.

(** An option of an [argparse] parser, under its [dest]: the default it
    holds, what its [type] makes of a string ([None] when the conversion
    raises) and whether it is required.  A default set on the parser for a
    name without option behaves as an optional option of type [str].  Options
    whose default is [SUPPRESS] never reach the namespace and are left out. *)
Record option_action : Type := mkAction {
  act_default : json;
  act_type : string -> option json;
  act_required : bool
}.

(** The built-in [type] functions of the core options: [str] and [list]. *)
Definition type_str (s : string) : option json := Some (JStr s).

Definition type_list (s : string) : option json :=
  Some (JArr (map (fun c => JStr (String c EmptyString)) (list_ascii_of_string s))).

(** ** Exceptions, events and the computation monad *)

(** [SystemExit msg] is [sys.exit] with a message, [SystemExitCode n] the exit
    of [argparse] with status [n]; [AttributeError] is the two-argument one of
    [validate_module], [NamespaceAttributeError name] the one an
    [argparse.Namespace] raises for a missing attribute. *)
Inductive exn : Type :=
| ModuleNotFoundError (msg : string)
| AttributeError (msg hint : string)
| IndexError
| KeyError (key : string)
| TypeError
| UnboundLocalError
| SystemExit (msg : string)
| SystemExitCode (code : N)
| NamespaceAttributeError (name : string)
| ValueError (msg : string).

Inductive event : Type :=
| EvImport (path : string)
| EvLogInfo (msg : string)
| EvPrint (msg : string).

(** What [get_modules_list] can raise: the [JSONDecodeError] it builds
    itself, or an exception of the table above. *)
Inductive config_error : Type :=
| JSONDecodeError (msg : string) (doc : text) (pos : N)
| Raised (e : exn).

(** What the set-up functions and the documentation script do to the
    system: logging configuration, files, shell commands, standard output. *)
Inductive sys_event : Type :=
| SysBasicConfig (filename level : string)
| SysGetLogger (name : string)
| SysCommand (cmd : string)
| SysWrite (path : string) (lines : list string)
| SysPrint (msg : string).

Definition M (A : Type) : Type := (list event * (exn + A))%type.

Definition ret {A} (a : A) : M A := ([], inr a).
Definition raise {A} (e : exn) : M A := ([], inl e).
Definition emit (ev : event) : M unit := ([ev], inr tt).

Definition bind {A B} (c : M A) (k : A -> M B) : M B :=
  match c with
  | (tr, inl e) => (tr, inl e)
  | (tr, inr a) => let '(tr', r) := k a in (tr ++ tr', r)
  end.

(** [try: c  except ModuleNotFoundError: h] *)
Definition try_except_ModuleNotFoundError {A} (c h : M A) : M A :=
  match c with
  | (tr, inl (ModuleNotFoundError _)) => let '(tr', r) := h in (tr ++ tr', r)
  | _ => c
  end.

#[global] Instance M_ret : MRet M := @ret.
#[global] Instance M_bind : MBind M := fun A B k c => bind c k.

Definition trace {A} (c : M A) : list event := fst c.
Definition outcome {A} (c : M A) : exn + A := snd c.

(** ** [remove_comments] *)

Module Text.

(** [str.isspace] on one code point. *)
Definition is_space (c : N) : bool :=
  ((9 <=? c) && (c <=? 13) || (28 <=? c) && (c <=? 32)
   || (c =? 133) || (c =? 160) || (c =? 5760)
   || (8192 <=? c) && (c <=? 8202)
   || (c =? 8232) || (c =? 8233) || (c =? 8239) || (c =? 8287)
   || (c =? 12288))%N.

Definition newline : N := 10.
Definition slash : N := 47.
Definition hash : N := 35.

Fixpoint lstrip (s : text) : text :=
  match s with
  | [] => []
  | c :: r => if is_space c then lstrip r else s
  end.

Fixpoint rstrip (s : text) : text :=
  match s with
  | [] => []
  | c :: r =>
      match rstrip r with
      | [] => if is_space c then [] else [c]
      | r' => c :: r'
      end
  end.

(** [s.strip()] *)
Definition strip (s : text) : text := rstrip (lstrip s).

(** [s.startswith(p)] *)
Fixpoint startswith (p s : text) : bool :=
  match p, s with
  | [], _ => true
  | _ :: _, [] => false
  | a :: p', c :: s' => (a =? c)%N && startswith p' s'
  end.

(** [s.startswith((p1, p2, ...))] *)
Definition startswith_any (ps : list text) (s : text) : bool :=
  existsb (fun p => startswith p s) ps.

(** [s.split("\n")]: always at least one piece. *)
Fixpoint split_lines (s : text) : list text :=
  match s with
  | [] => [[]]
  | c :: r =>
      if (c =? newline)%N then [] :: split_lines r
      else match split_lines r with
           | [] => [[c]]
           | l :: ls => (c :: l) :: ls
           end
  end.

(** ["\n".join(ls)] *)
Fixpoint join_lines (ls : list text) : text :=
  match ls with
  | [] => []
  | [l] => l
  | l :: ls' => l ++ newline :: join_lines ls'
  end.

Definition comment_prefixes : list text := [[slash; slash]; [hash]].

Definition is_comment_line (line : text) : bool :=
  startswith_any comment_prefixes (strip line).

Definition remove_comments (json_str : text) : text :=
  let lines := split_lines json_str in
  let cleaned_lines := List.filter (fun line => negb (is_comment_line line)) lines in
  join_lines cleaned_lines.

(** The sentence of the specification, word for word: a line is a comment
    when, after trimming leading white space, it starts with [//] or [#]. *)
Definition spec_is_comment (line : text) : bool :=
  startswith [slash; slash] (lstrip line) || startswith [hash] (lstrip line).

(** Text of an ASCII literal, for examples. *)
Definition of_string (s : string) : text :=
  map (fun a => N_of_ascii a) (list_ascii_of_string s).

End Text.

(** *** What the specification says of comment lines

    These definitions follow the words of the specification and use
    nothing of the embedding above: white space is listed code point by
    code point, the two markers are written as code points, and a text is
    built from its lines by putting one line feed (code point 10) between
    consecutive lines. *)
Module CommentSpec.

(** The code points Python counts as white space. *)
Definition white_space : list N :=
  [9; 10; 11; 12; 13; 28; 29; 30; 31; 32; 133; 160; 5760;
   8192; 8193; 8194; 8195; 8196; 8197; 8198; 8199; 8200; 8201; 8202;
   8232; 8233; 8239; 8287; 12288]%N.

(** A line without its leading white space. *)
Fixpoint trim_leading (line : list N) : list N :=
  match line with
  | [] => []
  | c :: rest => if existsb (N.eqb c) white_space then trim_leading rest else line
  end.

(** A comment line: after its leading white space comes [#] (35) or [//]
    (47, 47). *)
Definition is_comment (line : list N) : bool :=
  match trim_leading line with
  | [] => false
  | [c] => (c =? 35)%N
  | c :: d :: _ => ((c =? 35) || (c =? 47) && (d =? 47))%N
  end.

(** The text whose lines are [lines]. *)
Definition text_of_lines (lines : list (list N)) : list N :=
  match lines with
  | [] => []
  | first :: others => first ++ flat_map (fun line => 10%N :: line) others
  end.

End CommentSpec.

(** ** A small installation, for the examples *)

Module Examples.

Definition lifecycle : list string := ["params"; "initialize"; "update"; "finalize"].

Definition mod_A : Module :=
  mkModule "<module 'igm.modules.preproc.A'>" lifecycle None.
Definition mod_B : Module :=
  mkModule "<module 'igm.modules.process.B'>" lifecycle (Some ["D"]).
Definition mod_B2 : Module :=
  mkModule "<module 'igm.modules.process.B2'>" lifecycle (Some ["D"]).
Definition mod_C : Module :=
  mkModule "<module 'igm.modules.postproc.C'>" lifecycle None.
Definition mod_D : Module :=
  mkModule "<module 'igm.modules.process.D'>" lifecycle None.
Definition mod_D_cwd : Module :=
  mkModule "<module 'D'>" lifecycle None.
Definition mod_D1 : Module :=
  mkModule "<module 'igm.modules.preproc.D1'>" lifecycle None.
Definition mod_D2 : Module :=
  mkModule "<module 'igm.modules.preproc.D2'>" lifecycle None.
Definition mod_E : Module :=
  mkModule "<module 'igm.modules.process.E'>" lifecycle (Some ["D1"; "D2"]).

(** A module written against the names of the specification. *)
Definition mod_spec_names : Module :=
  mkModule "<module 'custom'>"
    ["register_params"; "initialize"; "update"; "finalize"] None.

Fixpoint assoc (path : string) (table : list (string * Module)) : option Module :=
  match table with
  | [] => None
  | (p, m) :: rest => if String.eqb path p then Some m else assoc path rest
  end.

Definition framework : list (string * Module) :=
  [("igm.modules.preproc.A", mod_A);
   ("igm.modules.process.B", mod_B);
   ("igm.modules.process.B2", mod_B2);
   ("igm.modules.postproc.C", mod_C);
   ("igm.modules.process.D", mod_D);
   ("igm.modules.preproc.D1", mod_D1);
   ("igm.modules.preproc.D2", mod_D2);
   ("igm.modules.process.E", mod_E)].

(** Only the framework modules are installed. *)
Definition env (path : string) : option Module := assoc path framework.

(** The working directory also holds a file [D.py]. *)
Definition env_cwd (path : string) : option Module :=
  assoc path (("D", mod_D_cwd) :: framework).

Definition igm_dir : string := "/opt/igm".

(** The same installation, as an environment whose imports raise; the
    module [broken] is found in the framework and raises [KeyError] while
    it is executed. *)
Definition env_raising (path : string) : exn + Module :=
  if String.eqb path "igm.modules.process.broken" then inl (KeyError "HOME")
  else match env path with
       | Some m => inr m
       | None => inl (ModuleNotFoundError ("No module named '" +:+ path +:+ "'"))
       end.

(** An iteration order: the insertion order. *)
Definition insertion_order (s : list Module) : list Module := s.

Definition pipeline_ABC : modules_dict :=
  mkModulesDict ["A"] ["B"] ["C"].

(** A [type=int] that accepts the decimal literals used below. *)
Definition example_int (s : string) : option json :=
  if String.eqb s "0" || String.eqb s "1" || String.eqb s "2" then Some (JNum s)
  else None.

Definition example_str2bool (s : string) : option json :=
  Some (JBool (String.eqb s "true" || String.eqb s "1")).

(** A parser with three of the core options. *)
Definition registered : gmap string option_action :=
  <["working_dir" := mkAction (JStr "run") type_str false]>
    (<["modules_process" := mkAction (JArr []) type_list false]>
       (<["gpu" := mkAction (JNum "0") example_int false]> ∅)).

Definition config : list (string * json) :=
  [("modules_process", JArr [JStr "iceflow"]);
   ("gpu", JNum "1");
   ("bogus", JBool true)].

Definition config_deprecated : list (string * json) :=
  [("modules_process", JArr [JStr "iceflow"; JStr "time_step"])].

(** A module that stops after [initialize]: it lacks both [finalize] and
    [update]. *)
Definition mod_half : Module :=
  mkModule "<module 'half'>" ["initialize"; "params"] None.

(** A module with an empty dependency list. *)
Definition mod_F : Module :=
  mkModule "<module 'igm.modules.process.F'>" lifecycle (Some []).

(** A parameter file with the three module lists and one more key. *)
Definition config_lists : list (string * json) :=
  [("modules_preproc", JArr [JStr "A"]);
   ("modules_process", JArr [JStr "B"]);
   ("modules_postproc", JArr [JStr "C"]);
   ("verbosity", JNum "2")].

(** A parameter file without [modules_process]. *)
Definition config_no_lists : list (string * json) := [("gpu", JNum "1")].

(** A parser that returns the same dictionary for every text. *)
Definition loads (members : list (string * json)) (_ : text) : string + json :=
  inr (JObj members).

End Examples.

(** ** Module loading, validation and dependency expansion *)

Section Igm.

(** [importlib.import_module]: the module found under an import path, or
    [None] when the import raises [ModuleNotFoundError]. *)
Variable import_module : string -> option Module.

(** [Path(igm.__file__).parent], as printed in messages. *)
Variable igm_parent : string.

(** [list(s)] for a set [s]: Python fixes no iteration order, so the order
    is a parameter of the development.  Its argument is the set in
    insertion order. *)
Variable set_order : list Module -> list Module.

(** [json.loads]: the parsed value, or the text of the [JSONDecodeError]
    it raises. *)
Variable json_loads : text -> string + json.

Definition import (path : string) : M Module :=
  emit (EvImport path) ;;
  match import_module path with
  | Some m => ret m
  | None => raise (ModuleNotFoundError ("No module named '" +:+ path +:+ "'"))
  end.

Definition hasattr (module : Module) (name : string) : bool :=
  if String.eqb name "dependencies" then bool_decide (is_Some (mod_dependencies module))
  else bool_decide (name ∈ mod_attrs module).

Definition required_functions : list string :=
  ["params"; "initialize"; "finalize"; "update"].

Definition missing_function_msg (module : Module) (function : string) : string :=
  "Module " +:+ mod_repr module +:+ " is missing the required function ("
  +:+ function
  +:+ "). If it is a custom python package, make sure to include it in the __init__.py file.".

Definition custom_modules_hint : string :=
  "Please see https://github.com/jouvetg/igm/wiki/5.-Custom-modules-(coding) for more information on how to construct custom modules.".

Fixpoint validate_functions (module : Module) (functions : list string) : M unit :=
  match functions with
  | [] => ret tt
  | function :: rest =>
      if hasattr module function then validate_functions module rest
      else raise (AttributeError (missing_function_msg module function)
                                 custom_modules_hint)
  end.

Definition validate_module (module : Module) : M unit :=
  validate_functions module required_functions.

Definition framework_path (module_folder module_name : string) : string :=
  "igm.modules." +:+ module_folder +:+ "." +:+ module_name.

Definition framework_dir (module_folder : string) : string :=
  igm_parent +:+ "/modules/" +:+ module_folder.

Definition not_found_msg (module_folder module_name : string) : string :=
  "Can not find module " +:+ module_name
  +:+ ". Make sure it is either in the 1) " +:+ framework_dir module_folder
  +:+ " directory or 2) in your current working directory.".

(** The body of the [for] loop of [load_modules_from_directory] up to the
    binding of [module]. *)
Definition import_named (module_folder module_name : string) : M Module :=
  let module_path := framework_path module_folder module_name in
  try_except_ModuleNotFoundError
    (import module_path)
    (emit (EvLogInfo ("Error importing module: " +:+ module_path
                      +:+ ", checking for custom package in current working directory.")) ;;
     try_except_ModuleNotFoundError
       (emit (EvLogInfo ("Trying to import custom module from current working directory (folder or .py): "
                         +:+ module_name)) ;;
        import module_name)
       (raise (ModuleNotFoundError (not_found_msg module_folder module_name)))).

Fixpoint load_loop (module_folder : string) (modules_list : list string)
    (imported_modules : list Module) : M (list Module) :=
  match modules_list with
  | [] => ret imported_modules
  | module_name :: rest =>
      module ← import_named module_folder module_name;
      validate_module module ;;
      load_loop module_folder rest (imported_modules ++ [module])
  end.

Definition load_modules_from_directory (modules_list : list string)
    (module_folder : string) : M (list Module) :=
  load_loop module_folder modules_list [].

Definition load_modules (d : modules_dict) : M (list Module) :=
  imported_preproc_modules ← load_modules_from_directory (modules_preproc d) "preproc";
  imported_process_modules ← load_modules_from_directory (modules_process d) "process";
  imported_postproc_modules ← load_modules_from_directory (modules_postproc d) "postproc";
  ret (imported_preproc_modules ++ imported_process_modules ++ imported_postproc_modules).

(** *** The loader, whatever an import raises

    [importlib.import_module] can raise more than [ModuleNotFoundError]:
    before it looks anything up it raises [TypeError] for a name that starts
    with a dot (a relative import without a package) and
    [ValueError('Empty module name')] for the empty name, and the module it
    finds can raise while it is executed.  Here the environment
    [import_outcome] gives, for every other name, the module or the
    exception of the import; the loop of [load_modules_from_directory] is
    the same. *)
Definition import_module_raising (import_outcome : string -> exn + Module)
    (name : string) : M Module :=
  emit (EvImport name) ;;
  if String.prefix "." name then raise TypeError
  else if String.eqb name "" then raise (ValueError "Empty module name")
  else match import_outcome name with
       | inl e => raise e
       | inr module => ret module
       end.

Definition import_named_raising (import_outcome : string -> exn + Module)
    (module_folder module_name : string) : M Module :=
  let module_path := "igm.modules." +:+ module_folder +:+ "." +:+ module_name in
  try_except_ModuleNotFoundError
    (import_module_raising import_outcome module_path)
    (emit (EvLogInfo ("Error importing module: " +:+ module_path
                      +:+ ", checking for custom package in current working directory.")) ;;
     try_except_ModuleNotFoundError
       (emit (EvLogInfo ("Trying to import custom module from current working directory (folder or .py): "
                         +:+ module_name)) ;;
        import_module_raising import_outcome module_name)
       (raise (ModuleNotFoundError
                 ("Can not find module " +:+ module_name
                  +:+ ". Make sure it is either in the 1) " +:+ igm_parent
                  +:+ "/modules/" +:+ module_folder
                  +:+ " directory or 2) in your current working directory.")))).

Fixpoint load_loop_raising (import_outcome : string -> exn + Module)
    (module_folder : string) (modules_list : list string)
    (imported_modules : list Module) : M (list Module) :=
  match modules_list with
  | [] => ret imported_modules
  | module_name :: rest =>
      module ← import_named_raising import_outcome module_folder module_name;
      validate_module module ;;
      load_loop_raising import_outcome module_folder rest (imported_modules ++ [module])
  end.

Definition load_modules_from_directory_raising
    (import_outcome : string -> exn + Module)
    (modules_list : list string) (module_folder : string) : M (list Module) :=
  load_loop_raising import_outcome module_folder modules_list [].

(** The two-outcome environment [import_module], seen as one that raises. *)
Definition import_module_outcome (name : string) : exn + Module :=
  match import_module name with
  | Some module => inr module
  | None => inl (ModuleNotFoundError ("No module named '" +:+ name +:+ "'"))
  end.

(** [hasattr(module, "dependencies")] *)
Definition has_dependencies (module : Module) : bool := hasattr module "dependencies".

Definition directories_to_search : list string := ["preproc"; "process"; "postproc"].

(** [s.add(m)] on a set kept in insertion order. *)
Definition set_add (m : Module) (s : list Module) : list Module :=
  if decide (m ∈ s) then s else s ++ [m].

(** [l[0]] *)
Definition index0 (l : list Module) : M Module :=
  match l with
  | [] => raise IndexError
  | m :: _ => ret m
  end.

Definition found_msg (directory : string) : string :=
  "Found dependencies in directory " +:+ directory
  +:+ " or current working directory. Checking next module for dependencies.".

Definition not_found_here_msg (directory : string) : string :=
  "Could not find dependencies in directory " +:+ directory
  +:+ " or current working directory. Checking next IGM directory.".

(** The inner [for directory in directories_to_search] loop; returning from
    the [try] body is the [break]. *)
Fixpoint search_directories (module_dependencies : list string)
    (directories : list string) (imported_dependencies : list Module)
    : M (list Module) :=
  match directories with
  | [] => ret imported_dependencies
  | directory :: rest =>
      try_except_ModuleNotFoundError
        (dependent_module ← load_modules_from_directory module_dependencies directory;
         first ← index0 dependent_module;
         emit (EvLogInfo (found_msg directory)) ;;
         ret (set_add first imported_dependencies))
        (emit (EvLogInfo (not_found_here_msg directory)) ;;
         search_directories module_dependencies rest imported_dependencies)
  end.

(** The outer [for module in imported_modules] loop. *)
Fixpoint dependencies_loop (modules : list Module)
    (imported_dependencies : list Module) : M (list Module) :=
  match modules with
  | [] => ret imported_dependencies
  | module :: rest =>
      if has_dependencies module then
        let module_dependencies := default [] (mod_dependencies module) in
        deps ← search_directories module_dependencies directories_to_search
                  imported_dependencies;
        dependencies_loop rest deps
      else dependencies_loop rest imported_dependencies
  end.

Definition add_dependencies (imported_modules : list Module) : M (list Module) :=
  imported_dependencies ← dependencies_loop imported_modules [];
  ret (imported_modules ++ set_order imported_dependencies).

(** *** [overide_from_json_file] *)

(** [d[key]] on a dictionary held as its items in insertion order. *)
Fixpoint dict_get (key : string) (members : list (string * json)) : option json :=
  match members with
  | [] => None
  | (k, v) :: rest => if String.eqb key k then Some v else dict_get key rest
  end.

(** [needle in hay] on two [str]. *)
Fixpoint is_substring (needle hay : string) : bool :=
  String.prefix needle hay
  || match hay with
     | EmptyString => false
     | String _ rest => is_substring needle rest
     end.

Definition is_str (s : string) (v : json) : bool :=
  match v with
  | JStr s' => String.eqb s s'
  | _ => false
  end.

(** [s in v] for a [str] [s] and a parsed JSON value [v]. *)
Definition py_in (s : string) (v : json) : M bool :=
  match v with
  | JArr items => ret (existsb (is_str s) items)
  | JObj members => ret (existsb (fun kv => String.eqb s (fst kv)) members)
  | JStr hay => ret (is_substring s hay)
  | JNull | JBool _ | JNum _ => raise TypeError
  end.

(** [dic_params["modules_process"]] where [dic_params] is whatever
    [json.loads] returned. *)
Definition subscript (dic_params : json) (key : string) : M json :=
  match dic_params with
  | JObj members =>
      match dict_get key members with
      | Some v => ret v
      | None => raise (KeyError key)
      end
  | _ => raise TypeError
  end.

Definition wiki_banner : string :=
  " ------- CHECK THE WIKI TO CHANGE YOUR PARAM FILE AND USER MODULES -------------".

Definition deprecation_msg : string :=
  "WARNING: the parameter time_step is deprecated, UPDATE you params.json file".

Definition unknown_key_msg (key : string) : string :=
  "WARNING: the following parameters of the json file do not exist in igm:  " +:+ key.

Fixpoint ends_with (c : ascii) (s : string) : bool :=
  match s with
  | EmptyString => false
  | String a EmptyString => Ascii.eqb a c
  | String _ rest => ends_with c rest
  end.

(** [os.path.join(a, b)] of [posixpath]. *)
Definition path_join (a b : string) : string :=
  if String.prefix "/" b then b
  else if String.eqb a "" || ends_with "/" a then a +:+ b
  else a +:+ "/" +:+ b.

(** What [parse_args] stores for an option that is absent from the command
    line: a string default goes through the [type] of the option, any other
    default is stored as it is. *)
Definition namespace_value (a : option_action) : option json :=
  match act_default a with
  | JStr s => act_type a s
  | v => Some v
  end.

Definition parses (a : option_action) : bool :=
  negb (act_required a) && bool_decide (is_Some (namespace_value a)).

(** [parser.parse_args(args=[])]: the namespace, or the exit with status 2
    by which [argparse] reports a required option or a default that its
    [type] rejects.  What [argparse] writes to the standard error is not
    recorded. *)
Definition parse_args (parser : gmap string option_action) : M (gmap string json) :=
  if bool_decide (map_Forall (fun _ a => parses a = true) parser)
  then ret (omap namespace_value parser)
  else raise (SystemExitCode 2).

(** [namespace.name] *)
Definition namespace_attr (namespace : gmap string json) (name : string) : M json :=
  match namespace !! name with
  | Some v => ret v
  | None => raise (NamespaceAttributeError name)
  end.

(** [os.path.join(a, b)] for a value [a] that need not be a string. *)
Definition os_path_join (a : json) (b : string) : M string :=
  match a with
  | JStr dir => ret (path_join dir b)
  | _ => raise TypeError
  end.

(** [for key in dic_params.keys(): if not key in LIST: print(...)] *)
Fixpoint warn_unknown (LIST : gset string) (keys : list string) : M unit :=
  match keys with
  | [] => ret tt
  | key :: rest =>
      (if bool_decide (key ∈ LIST) then ret tt
       else emit (EvPrint (unknown_key_msg key))) ;;
      warn_unknown LIST rest
  end.

(** [parser.set_defaults] for one keyword argument: the default of the
    option of that name, or a default of the parser when there is none. *)
Definition set_default (parser : gmap string option_action)
    (kv : string * json) : gmap string option_action :=
  match parser !! fst kv with
  | Some a => <[fst kv := mkAction (snd kv) (act_type a) (act_required a)]> parser
  | None => <[fst kv := mkAction (snd kv) type_str false]> parser
  end.

(** [parser.set_defaults] with the keyword arguments [kwargs]. *)
Definition set_defaults (parser : gmap string option_action)
    (kwargs : list (string * json)) : gmap string option_action :=
  foldl set_default parser kwargs.

(** Lines 135 to 156: the deprecation check, the warnings and
    [set_defaults], once [dic_params] and [LIST] are bound. *)
Definition apply_dic_params (parser : gmap string option_action)
    (LIST : gset string) (check_if_params_exist : bool) (dic_params : json)
    : M (gmap string option_action) :=
  modules_process ← subscript dic_params "modules_process";
  deprecated ← py_in "time_step" modules_process;
  if (deprecated : bool) then
    emit (EvPrint wiki_banner) ;;
    raise (SystemExit deprecation_msg)
  else
    let members := match dic_params with JObj ms => ms | _ => [] end in
    (if check_if_params_exist then warn_unknown LIST (map fst members)
     else ret tt) ;;
    let filtered_dict :=
      List.filter (fun kv => bool_decide (fst kv ∈ LIST)) members in
    ret (set_defaults parser filtered_dict).

(** [json_text] is what reading [param_file] returns.  The result is the
    parser after [set_defaults].  A decoding error is only printed, which
    leaves [dic_params] unbound when line 135 reads it. *)
Definition overide_from_json_file (parser : gmap string option_action)
    (check_if_params_exist : bool) (json_text : text)
    : M (gmap string option_action) :=
  namespace ← parse_args parser;
  working_dir ← namespace_attr namespace "working_dir";
  param_file ← os_path_join working_dir "params.json";
  let json_without_comments := Text.remove_comments json_text in
  let loaded := json_loads json_without_comments in
  match loaded with
  | inl e => emit (EvPrint ("Error decoding JSON: " +:+ e))
  | inr _ => ret tt
  end ;;
  namespace' ← parse_args parser;
  let LIST := dom namespace' in
  match loaded with
  | inl _ => raise UnboundLocalError
  | inr dic_params => apply_dic_params parser LIST check_if_params_exist dic_params
  end.

(** *** [get_modules_list] *)

Definition decode_error_msg : string :=
  "For the following line, please check the 1) JSON file structure and/or 2) make sure there are no comments (//, #, etc.)".

(** [json_text] is the content of the file at [params_path], and
    [json_error_pos] gives [e.pos] of the [JSONDecodeError] that [json.loads]
    raises on a text.  The dictionary display evaluates its three subscripts
    from left to right. *)
Definition get_modules_list (json_error_pos : text -> N) (json_text : text)
    : config_error + list (string * json) :=
  let json_cleaned := Text.remove_comments json_text in
  match json_loads json_cleaned with
  | inl _ =>
      inl (JSONDecodeError decode_error_msg json_cleaned (json_error_pos json_cleaned))
  | inr params_dict =>
      match outcome
              (preproc ← subscript params_dict "modules_preproc";
               process ← subscript params_dict "modules_process";
               postproc ← subscript params_dict "modules_postproc";
               ret [("modules_preproc", preproc);
                    ("modules_process", process);
                    ("modules_postproc", postproc)]) with
      | inl e => inl (Raised e)
      | inr module_dict => inr module_dict
      end
  end.

(** *** [params_core] *)

(** The options the core registers.  [py_int] is the built-in [int] and
    [str2bool] the function of [igm.modules.utils], which is not part of the
    sources at hand; both are taken on strings, as [argparse] applies them. *)
Definition params_core (py_int str2bool : string -> option json)
    : gmap string option_action :=
  list_to_map
    [("working_dir", mkAction (JStr "") type_str false);
     ("param_file", mkAction (JStr "params.json") type_str false);
     ("modules_preproc", mkAction (JArr [JStr "oggm_shop"]) type_list false);
     ("modules_process",
      mkAction (JArr [JStr "iceflow"; JStr "time"; JStr "thk"]) type_list false);
     ("modules_postproc",
      mkAction (JArr [JStr "write_ncdf"; JStr "plot2d"; JStr "print_info"])
        type_list false);
     ("logging", mkAction (JBool false) str2bool false);
     ("logging_file", mkAction (JStr "") type_str false);
     ("print_params", mkAction (JBool true) type_str false);
     ("gpu", mkAction (JNum "0") py_int false)].

(** *** The run driver *)

(** Modelled from the spec: the run driver ([igm_run.py]), which is not among
    the sources.  By the data flow of section 2 the declared module lists go
    to the resolver and validator and then to the dependency expander; by
    section 4.1 the parameter registry starts from the core options and
    layers the parameter file on them, and by property 6 of section 8 its
    deprecation check stops the run before any module is resolved.  [names]
    are the module lists that the file declares. *)
Definition run_setup (py_int str2bool : string -> option json) (check : bool)
    (json_text : text) (names : modules_dict) : M (list Module) :=
  overide_from_json_file (params_core py_int str2bool) check json_text ;;
  imported_modules ← load_modules names;
  add_dependencies imported_modules.

(** *** [add_logger] *)

(** What [add_logger] can raise: the [AttributeError] of
    [getattr(logging, name)] for a name the module [logging] does not have,
    or whatever [logging.basicConfig] raises. *)
Inductive logger_error : Type :=
| NoLoggingAttribute (name : string)
| BasicConfigRaised (e : exn).

(** [logging_attribute] is [getattr(logging, name)], shown by its [repr],
    or [None] when the module [logging] has no such attribute.
    [basic_config filename level] is what the call of [logging.basicConfig]
    does in the environment: [None] when it returns, the exception when it
    raises ([TypeError] or [ValueError] for a [level] that is no logging
    level, the error of opening [filename]).  The result is the calls made,
    in order, and the exception raised, if any.  [basicConfig] is also given
    the constants [encoding], [filemode] and [format]; the logger is stored
    in [state.logger]. *)
Definition add_logger (logging_attribute : string -> option string)
    (basic_config : string -> string -> option exn)
    (working_dir logging_file logging_level : string)
    : list sys_event * option logger_error :=
  let pathf :=
    if String.eqb logging_file "" then "" else path_join working_dir logging_file in
  match logging_attribute logging_level with
  | None => ([], Some (NoLoggingAttribute logging_level))
  | Some level =>
      match basic_config pathf level with
      | Some e => ([SysBasicConfig pathf level], Some (BasicConfigRaised e))
      | None =>
          ([SysBasicConfig pathf level; SysGetLogger "my_logger"]
           ++ (if negb (String.eqb pathf "")
               then [SysCommand ("echo rm " +:+ pathf +:+ " >> clean.sh")]
               else []),
           None)
      end
  end.

(** *** [doc_params/generate_all_params_doc.py] *)

(** [s.split(c)] for a one-character separator. *)
Fixpoint split_on (c : ascii) (s : string) : list string :=
  match s with
  | EmptyString => [EmptyString]
  | String a rest =>
      if Ascii.eqb a c then EmptyString :: split_on c rest
      else match split_on c rest with
           | [] => [String a EmptyString]
           | piece :: pieces => String a piece :: pieces
           end
  end.

(** [l.split('/')[-1].split('.')[0]] *)
Definition stem (l : string) : string :=
  List.hd "" (split_on "." (List.last (split_on "/" l) "")).

(** [L.remove(x)]: [None] when it raises [ValueError]. *)
Fixpoint list_remove (x : string) (L : list string) : option (list string) :=
  match L with
  | [] => None
  | y :: rest =>
      if String.eqb y x then Some rest
      else match list_remove x rest with
           | Some rest' => Some (y :: rest')
           | None => None
           end
  end.

Definition run_script (l : string) : list string :=
  ["import sys"; "sys.path.append('../')"; "import argparse"; "import igm";
   "parser = argparse.ArgumentParser()";
   "igm.params_" +:+ l +:+ "(parser)";
   "params = parser.parse_args()"].

(** The body of the loop over the module names of one folder. *)
Definition document (m l : string) : list sys_event :=
  [SysPrint (m +:+ " " +:+ l);
   SysWrite "igm-run.py" (run_script l);
   SysCommand "argmark -f igm-run.py";
   SysCommand ("mv argmark.md " +:+ l +:+ ".md")].

(** [glob] is [glob.glob]: the paths that match a pattern. *)
Definition folder_names (glob : string -> list string) (m : string) : list string :=
  map stem (glob ("../igm/modules/" +:+ m +:+ "/*.py")).

(** The loop over the folders: what was done, and whether it got to the end
    ([false] when [L.remove] raised [ValueError]). *)
Fixpoint document_folders (glob : string -> list string) (folders : list string)
    : list sys_event * bool :=
  match folders with
  | [] => ([], true)
  | m :: rest =>
      match list_remove "__init__" (folder_names glob m) with
      | None => ([], false)
      | Some L =>
          let '(events, finished) := document_folders glob rest in
          (flat_map (document m) L ++ events, finished)
      end
  end.

Definition doc_folders : list string := ["preproc"; "physics"; "postproc"].

Definition generate_all_params_doc (glob : string -> list string)
    : list sys_event * bool :=
  let '(events, finished) := document_folders glob doc_folders in
  if finished then (events ++ [SysCommand "rm igm-run.py"], true)
  else (events, false).

(** *** Vocabulary of the statements *)

(** The module a name denotes in a category: the framework namespace of
    the category first, the working directory otherwise. *)
Definition resolve (module_folder module_name : string) : option Module :=
  match import_module (framework_path module_folder module_name) with
  | Some m => Some m
  | None => import_module module_name
  end.

(** The module exposes every required function. *)
Definition valid (module : Module) : bool :=
  forallb (hasattr module) required_functions.

(** The first required function, in the order of the check, that the module
    does not expose. *)
Definition first_missing (module : Module) : option string :=
  List.find (fun function => negb (hasattr module function)) required_functions.

(** The first import path, in order, under which a module is found. *)
Fixpoint first_found (paths : list string) : option Module :=
  match paths with
  | [] => None
  | path :: rest =>
      match import_module path with
      | Some m => Some m
      | None => first_found rest
      end
  end.

(** The import paths tried for one dependency name, in the order the
    expansion tries them. *)
Definition lookup_order (name : string) : list string :=
  [framework_path "preproc" name; name;
   framework_path "process" name; name;
   framework_path "postproc" name; name].

(** The import paths a trace attempted, in order. *)
Fixpoint imports (tr : list event) : list string :=
  match tr with
  | [] => []
  | EvImport path :: rest => path :: imports rest
  | _ :: rest => imports rest
  end.

(** The paths of a list up to and including the first one that is found. *)
Fixpoint until_found (paths : list string) : list string :=
  match paths with
  | [] => []
  | path :: rest =>
      path :: match import_module path with
              | Some _ => []
              | None => until_found rest
              end
  end.

(** The messages printed for the keys that are not registered. *)
Definition unknown_key_warnings (parser : gmap string option_action)
    (keys : list string) : list event :=
  map (fun key => EvPrint (unknown_key_msg key))
      (List.filter (fun key => negb (bool_decide (key ∈ dom parser))) keys).

(** The lines of a text that comment stripping keeps. *)
Definition kept_lines (s : text) : list text :=
  List.filter (fun line => negb (Text.is_comment_line line)) (Text.split_lines s).

(** Every name of a list resolves in one category. *)
Definition resolves_all (module_folder : string) (names : list string) : bool :=
  forallb (fun n => bool_decide (is_Some (resolve module_folder n))) names.

(** Where an appended dependency comes from: it is what the first name of
    the dependency list of some module of the list resolves to in one of the
    three categories. *)
Definition dependency_of (modules : list Module) (x : Module) : Prop :=
  exists module n rest d,
    In module modules /\ mod_dependencies module = Some (n :: rest)
    /\ In d directories_to_search /\ resolve d n = Some x.

(** The items of a parsed value when it is a dictionary. *)
Definition members_of (dic_params : json) : list (string * json) :=
  match dic_params with JObj ms => ms | _ => [] end.

(** The entries of a dictionary that [overide_from_json_file] applies. *)
Definition registered_entries (parser : gmap string option_action)
    (members : list (string * json)) : list (string * json) :=
  List.filter (fun kv => bool_decide (fst kv ∈ dom parser)) members.

(** The three keys [get_modules_list] reads. *)
Definition module_list_keys : list string :=
  ["modules_preproc"; "modules_process"; "modules_postproc"].

(** The character occurs in the string. *)
Fixpoint has_char (c : ascii) (s : string) : bool :=
  match s with
  | EmptyString => false
  | String a rest => Ascii.eqb a c || has_char c rest
  end.

(** The cleanup line that [add_logger] appends to [clean.sh]. *)
Definition cleanup_command (path : string) : sys_event :=
  SysCommand ("echo rm " +:+ path +:+ " >> clean.sh").

(** What [set_defaults] makes of an option: its default is replaced, its
    type and its being required are kept. *)
Definition with_default (x : json) (o : option option_action) : option_action :=
  match o with
  | Some a => mkAction x (act_type a) (act_required a)
  | None => mkAction x type_str false
  end.

(** The trace of a lookup that falls back to the working directory. *)
Definition fallback_trace (module_folder module_name : string) : list event :=
  [EvImport (framework_path module_folder module_name);
   EvLogInfo ("Error importing module: " +:+ framework_path module_folder module_name
              +:+ ", checking for custom package in current working directory.");
   EvLogInfo ("Trying to import custom module from current working directory (folder or .py): "
              +:+ module_name);
   EvImport module_name].

(** ** Facts about [remove_comments] *)

Import Text.

Lemma startswith_nil_r (p : text) : startswith p [] = match p with [] => true | _ => false end.
Proof. by destruct p. Qed.

(** Trimming on the right cannot change whether a text starts with a
    prefix made of visible characters. *)
Lemma startswith_rstrip (p s : text) :
  Forall (fun c => is_space c = false) p ->
  startswith p (rstrip s) = startswith p s.
Proof.
  revert p. induction s as [|c r IH]; intros p Hp; [done|].
  destruct p as [|a p']; [by destruct (rstrip (c :: r))|].
  apply Forall_cons in Hp as [Ha Hp']. specialize (IH p' Hp').
  simpl. destruct (rstrip r) as [|x r'] eqn:Hr.
  - destruct (is_space c) eqn:Hc; simpl.
    + destruct (N.eqb_spec a c) as [->|]; [congruence|done].
    + by rewrite IH.
  - simpl in *. by rewrite IH.
Qed.

Lemma is_comment_line_spec (line : text) :
  is_comment_line line = spec_is_comment line.
Proof.
  unfold is_comment_line, spec_is_comment, strip, comment_prefixes, startswith_any.
  cbn [existsb]. rewrite !startswith_rstrip, orb_false_r; [done|..];
    repeat constructor.
Qed.

Lemma split_lines_nonempty (s : text) : split_lines s <> [].
Proof.
  destruct s as [|c r]; [done|]. simpl.
  destruct (c =? newline)%N; [done|]. by destruct (split_lines r).
Qed.

Lemma split_lines_no_newline (s : text) :
  Forall (fun l => ~ In newline l) (split_lines s).
Proof.
  induction s as [|c r IH]; simpl.
  - constructor; [|constructor]. by intros [].
  - destruct (N.eqb_spec c newline) as [->|Hc].
    + constructor; [by intros []|done].
    + destruct (split_lines r) as [|l ls]; constructor.
      * intros [?|[]]. congruence.
      * constructor.
      * apply Forall_cons in IH as [Hl _]. intros [?|?]; [congruence|tauto].
      * by apply Forall_cons in IH as [_ ?].
Qed.

Lemma split_lines_app (l t : text) :
  ~ In newline l ->
  split_lines (l ++ newline :: t) = l :: split_lines t.
Proof.
  induction l as [|c l IH]; intros Hl; simpl.
  - done.
  - destruct (N.eqb_spec c newline) as [->|Hc]; [exfalso; apply Hl; by left|].
    rewrite IH; [done|]. intros ?. apply Hl. by right.
Qed.

Lemma split_lines_line (l : text) : ~ In newline l -> split_lines l = [l].
Proof.
  induction l as [|c l IH]; intros Hl; simpl; [done|].
  destruct (N.eqb_spec c newline) as [->|Hc]; [exfalso; apply Hl; by left|].
  rewrite IH; [done|]. intros ?. apply Hl. by right.
Qed.

(** [split] undoes [join] on a non-empty list of newline-free lines. *)
Lemma split_join_lines (ls : list text) :
  ls <> [] -> Forall (fun l => ~ In newline l) ls ->
  split_lines (join_lines ls) = ls.
Proof.
  induction ls as [|l ls IH]; intros Hne Hls; [done|].
  apply Forall_cons in Hls as [Hl Hls].
  destruct ls as [|l2 rest].
  - simpl. by apply split_lines_line.
  - change (join_lines (l :: l2 :: rest)) with (l ++ newline :: join_lines (l2 :: rest)).
    rewrite split_lines_app by done. by rewrite IH.
Qed.

(** [join] undoes [split]: a text without comment lines is returned as it is. *)
Lemma join_split_lines (s : text) : join_lines (split_lines s) = s.
Proof.
  induction s as [|c r IH]; simpl; [done|].
  destruct (N.eqb_spec c newline) as [->|Hc].
  - pose proof (split_lines_nonempty r).
    change (join_lines ([] :: split_lines r)) with
      (match split_lines r with [] => [] | _ => [] ++ newline :: join_lines (split_lines r) end).
    destruct (split_lines r); [done|]. by rewrite IH.
  - destruct (split_lines r) as [|l ls] eqn:Hs; [by apply split_lines_nonempty in Hs|].
    rewrite <- IH. by destruct ls.
Qed.

(** The listed code points are the ones [is_space] accepts. *)
Lemma white_space_is_space (c : N) :
  existsb (N.eqb c) CommentSpec.white_space = is_space c.
Proof using Type.
  unfold CommentSpec.white_space, is_space. cbn [existsb].
  apply Bool.eq_iff_eq_true.
  rewrite !orb_true_iff, !andb_true_iff, !N.eqb_eq, !N.leb_le.
  clear. lia.
Qed.

Lemma trim_leading_lstrip (line : text) : CommentSpec.trim_leading line = lstrip line.
Proof using Type.
  induction line as [|c rest IH]; [done|].
  cbn [CommentSpec.trim_leading lstrip]. rewrite white_space_is_space.
  by destruct (is_space c).
Qed.

Lemma is_comment_is_comment_line (line : text) :
  CommentSpec.is_comment line = is_comment_line line.
Proof using Type.
  rewrite is_comment_line_spec.
  unfold CommentSpec.is_comment, spec_is_comment. rewrite trim_leading_lstrip.
  destruct (lstrip line) as [|c [|d rest]]; [done|..];
    cbn [startswith]; unfold slash, hash;
    rewrite ?(N.eqb_sym 47), ?(N.eqb_sym 35);
    destruct (c =? 35)%N, (c =? 47)%N; try done;
    by destruct (d =? 47)%N.
Qed.

Lemma flat_map_join_lines (ls : list text) :
  flat_map (fun line => 10%N :: line) ls
  = match ls with [] => [] | _ => newline :: join_lines ls end.
Proof using Type.
  induction ls as [|l ls IH]; [done|].
  cbn [flat_map]. rewrite IH. by destruct ls; [rewrite app_nil_r|].
Qed.

Lemma text_of_lines_join_lines (ls : list text) :
  CommentSpec.text_of_lines ls = join_lines ls.
Proof using Type.
  destruct ls as [|l ls]; [done|].
  unfold CommentSpec.text_of_lines. rewrite flat_map_join_lines.
  by destruct ls; [rewrite app_nil_r|].
Qed.

Lemma split_lines_free (s : text) :
  Forall (fun l => ~ In 10%N l) (split_lines s).
Proof using Type.
  induction s as [|c r IH]; simpl.
  - constructor; [|constructor]. by intros [].
  - destruct (N.eqb_spec c newline) as [->|Hc].
    + constructor; [by intros []|done].
    + destruct (split_lines r) as [|l ls]; constructor.
      * by intros [?|[]].
      * constructor.
      * apply Forall_cons in IH as [Hl _]. by intros [?|?].
      * by apply Forall_cons in IH as [_ ?].
Qed.

Lemma white_space_In (c : N) :
  existsb (N.eqb c) CommentSpec.white_space = true <-> In c CommentSpec.white_space.
Proof using Type.
  rewrite existsb_exists. split.
  - by intros (x & Hx & ->%N.eqb_eq).
  - intros Hc. exists c. by rewrite N.eqb_refl.
Qed.

(** A line whose first visible character is neither [#] nor [/] is no
    comment line, whatever follows that character. *)
Lemma is_comment_visible (indent : list N) (c : N) (rest : list N) :
  Forall (fun w => In w CommentSpec.white_space) indent ->
  ~ In c CommentSpec.white_space -> c <> 35%N -> c <> 47%N ->
  CommentSpec.is_comment (indent ++ c :: rest) = false.
Proof using Type.
  intros Hindent Hc H35 H47. unfold CommentSpec.is_comment.
  assert (Htrim : CommentSpec.trim_leading (indent ++ c :: rest) = c :: rest).
  { induction Hindent as [|w indent Hw _ IH].
    - cbn [app CommentSpec.trim_leading].
      destruct (existsb (N.eqb c) CommentSpec.white_space) eqn:E; [|done].
      by apply white_space_In in E.
    - cbn [app CommentSpec.trim_leading].
      apply white_space_In in Hw. by rewrite Hw. }
  rewrite Htrim. apply N.eqb_neq in H35, H47. rewrite H35, H47.
  by destruct rest.
Qed.

(** C9.  [remove_comments] deletes exactly the lines that, once leading
    white space is trimmed, start with [//] or [#].  Every text is the
    text of a non-empty list of lines, none of which holds a line feed;
    that list is unique; on the text of such a list [remove_comments]
    returns the text of the lines that are not comment lines, each
    unchanged and in order; and a text is returned as it is when each of
    its lines has a first visible character other than [#] and [/],
    whatever comes after it, [//] and [#] included.  Lines, white space
    and the two markers are the ones of [CommentSpec], which uses nothing
    of the embedding. *)
Theorem remove_comments_drops_exactly_comment_lines :
  (forall json_str : text,
     exists lines, lines <> []
                   /\ Forall (fun l => ~ In 10%N l) lines
                   /\ json_str = CommentSpec.text_of_lines lines)
  /\ (forall lines lines',
        lines <> [] -> Forall (fun l => ~ In 10%N l) lines ->
        lines' <> [] -> Forall (fun l => ~ In 10%N l) lines' ->
        CommentSpec.text_of_lines lines = CommentSpec.text_of_lines lines' ->
        lines = lines')
  /\ (forall lines,
        lines <> [] -> Forall (fun l => ~ In 10%N l) lines ->
        remove_comments (CommentSpec.text_of_lines lines)
        = CommentSpec.text_of_lines
            (List.filter (fun l => negb (CommentSpec.is_comment l)) lines))
  /\ (forall lines,
        lines <> [] -> Forall (fun l => ~ In 10%N l) lines ->
        Forall (fun l => exists indent c rest,
                   l = indent ++ c :: rest
                   /\ Forall (fun w => In w CommentSpec.white_space) indent
                   /\ ~ In c CommentSpec.white_space
                   /\ c <> 35%N /\ c <> 47%N) lines ->
        remove_comments (CommentSpec.text_of_lines lines)
        = CommentSpec.text_of_lines lines).
Proof using Type.
  assert (Hfilter : forall ls,
            ls <> [] -> Forall (fun l => ~ In 10%N l) ls ->
            remove_comments (CommentSpec.text_of_lines ls)
            = CommentSpec.text_of_lines
                (List.filter (fun l => negb (CommentSpec.is_comment l)) ls)).
  { intros ls Hne Hfree.
    rewrite !text_of_lines_join_lines. unfold remove_comments. cbv zeta.
    rewrite split_join_lines by done. f_equal.
    apply List.filter_ext. intros l. by rewrite is_comment_is_comment_line. }
  split_and!; [| |exact Hfilter|].
  3: { intros ls Hne Hfree Hvisible. rewrite Hfilter by done. f_equal.
       clear Hne Hfree. induction Hvisible as [|l ls Hl _ IH]; [done|].
       destruct Hl as (indent & c & rest & -> & Hindent & Hc & H35 & H47).
       cbn [List.filter]. rewrite is_comment_visible by done.
       cbn [negb]. by rewrite IH. }
  - intros s. exists (split_lines s). split_and!.
    + apply split_lines_nonempty.
    + apply split_lines_free.
    + by rewrite text_of_lines_join_lines, join_split_lines.
  - intros ls ls' Hne Hfree Hne' Hfree' Heq.
    rewrite !text_of_lines_join_lines in Heq.
    rewrite <- (split_join_lines ls), <- (split_join_lines ls') by done.
    by rewrite Heq.
Qed.

(** ** The computation monad *)

Lemma bind_outcome {A B} (c : M A) (k : A -> M B) :
  outcome (c ≫= k)
  = match outcome c with inl e => inl e | inr a => outcome (k a) end.
Proof. destruct c as [tr [e|a]]; [done|]. cbn. by destruct (k a). Qed.

Lemma bind_trace {A B} (c : M A) (k : A -> M B) :
  trace (c ≫= k)
  = trace c ++ match outcome c with inl _ => [] | inr a => trace (k a) end.
Proof.
  destruct c as [tr [e|a]]; cbn; [by rewrite app_nil_r|]. by destruct (k a).
Qed.

Lemma bind_ret_l {A B} (a : A) (k : A -> M B) : (ret a ≫= k) = k a.
Proof. cbn. by destruct (k a). Qed.

Lemma bind_raise {A B} (c : M A) (k : A -> M B) tr e :
  c = (tr, inl e) -> (c ≫= k) = (tr, inl e).
Proof. by intros ->. Qed.

Lemma bind_value {A B} (c : M A) (k : A -> M B) tr a :
  c = (tr, inr a) -> (c ≫= k) = (tr ++ trace (k a), outcome (k a)).
Proof. intros ->. cbn. by destruct (k a). Qed.

Lemma M_eta {A} (c : M A) : c = (trace c, outcome c).
Proof. by destruct c. Qed.

(** ** Strings *)

Lemma prefix_append (x b : string) : String.prefix x (x +:+ b) = true.
Proof.
  induction x as [|a x IH]; simpl; [by destruct b|].
  destruct (Ascii.ascii_dec a a); [done|congruence].
Qed.

Lemma is_substring_here (x b : string) : is_substring x (x +:+ b) = true.
Proof.
  pose proof (prefix_append x b) as H.
  destruct (x +:+ b); unfold is_substring; fold is_substring; by rewrite H.
Qed.

Lemma is_substring_skip (a x t : string) :
  is_substring x t = true -> is_substring x (a +:+ t) = true.
Proof.
  intros H. induction a as [|c a IH]; [done|].
  change (String c a +:+ t) with (String c (a +:+ t)).
  unfold is_substring; fold is_substring. rewrite IH. apply orb_true_r.
Qed.

Lemma is_substring_append (a x b : string) : is_substring x (a +:+ x +:+ b) = true.
Proof. apply is_substring_skip, is_substring_here. Qed.

Lemma append_assoc (a b c : string) : (a +:+ b) +:+ c = a +:+ b +:+ c.
Proof.
  induction a as [|x a IH]; [done|].
  change (String x ((a +:+ b) +:+ c) = String x (a +:+ b +:+ c)). by f_equal.
Qed.

(** ** Validation *)

Lemma validate_functions_eq (module : Module) (functions : list string) :
  validate_functions module functions
  = match List.find (fun f => negb (hasattr module f)) functions with
    | None => ([], inr tt)
    | Some f => ([], inl (AttributeError (missing_function_msg module f)
                                         custom_modules_hint))
    end.
Proof.
  induction functions as [|f rest IH]; [done|].
  simpl. by destruct (hasattr module f).
Qed.

Lemma validate_module_eq (module : Module) :
  validate_module module
  = match first_missing module with
    | None => ([], inr tt)
    | Some f => ([], inl (AttributeError (missing_function_msg module f)
                                         custom_modules_hint))
    end.
Proof. apply validate_functions_eq. Qed.

Lemma first_missing_None (module : Module) :
  first_missing module = None <-> valid module = true.
Proof.
  unfold first_missing, valid. induction required_functions as [|f rest IH]; [done|].
  simpl. destruct (hasattr module f); simpl; [done|]. split; discriminate.
Qed.

Lemma first_missing_Some (module : Module) (f : string) :
  first_missing module = Some f ->
  In f required_functions /\ hasattr module f = false.
Proof.
  intros [Hin Hf]%List.find_some. split; [done|]. by apply negb_true_iff.
Qed.

Lemma validate_module_valid (module : Module) :
  valid module = true -> validate_module module = ([], inr tt).
Proof. intros H%first_missing_None. by rewrite validate_module_eq, H. Qed.

Lemma validate_module_outcome_ok (module : Module) :
  outcome (validate_module module) = inr tt -> valid module = true.
Proof.
  rewrite validate_module_eq. destruct (first_missing module) eqn:E; [done|].
  intros _. by apply first_missing_None.
Qed.

(** [hasattr] on a required name asks whether the module exposes it. *)
Lemma hasattr_required (module : Module) (f : string) :
  In f ["params"; "initialize"; "finalize"; "update"] ->
  hasattr module f = bool_decide (f ∈ mod_attrs module).
Proof.
  intros [<-|[<-|[<-|[<-|[]]]]]; reflexivity.
Qed.

(** C2 (amended).  The four names the check requires are [params],
    [initialize], [finalize] and [update].  A module lacks one of them
    exactly when validation raises [AttributeError], whose message names
    the first missing function, in that order, and the module; a module
    exposing all four passes.  The third part fixes which function is
    named: the one whose predecessors in the order [params], [initialize],
    [finalize], [update] are all exposed, with the two arguments of the
    exception written out. *)
Theorem validate_module_required_functions (module : Module) :
  ((exists f, In f ["params"; "initialize"; "finalize"; "update"]
              /\ hasattr module f = false)
   <-> (exists f, In f ["params"; "initialize"; "finalize"; "update"]
              /\ hasattr module f = false
              /\ validate_module module
                 = ([], inl (AttributeError (missing_function_msg module f)
                                            custom_modules_hint))
              /\ is_substring f (missing_function_msg module f) = true
              /\ is_substring (mod_repr module) (missing_function_msg module f) = true))
  /\ ((forall f, In f ["params"; "initialize"; "finalize"; "update"]
                 -> hasattr module f = true)
      <-> validate_module module = ([], inr tt))
  /\ (forall before f after,
        ["params"; "initialize"; "finalize"; "update"] = before ++ f :: after ->
        (forall g, In g before -> In g (mod_attrs module)) ->
        ~ In f (mod_attrs module) ->
        validate_module module
        = ([], inl (AttributeError
                      ("Module " +:+ mod_repr module
                       +:+ " is missing the required function (" +:+ f
                       +:+ "). If it is a custom python package, make sure to include it in the __init__.py file.")
                      "Please see https://github.com/jouvetg/igm/wiki/5.-Custom-modules-(coding) for more information on how to construct custom modules.")))
  /\ ((forall f, In f ["params"; "initialize"; "finalize"; "update"]
                 -> In f (mod_attrs module))
      <-> validate_module module = ([], inr tt)).
Proof.
  assert (Hpass : (forall f, In f ["params"; "initialize"; "finalize"; "update"]
                             -> hasattr module f = true)
                  <-> validate_module module = ([], inr tt)).
  { change ["params"; "initialize"; "finalize"; "update"] with required_functions.
    rewrite validate_module_eq. split.
    - intros Hall. destruct (first_missing module) as [g|] eqn:E; [|done].
      destruct (first_missing_Some _ _ E) as [Hg1 Hg2].
      by rewrite (Hall g Hg1) in Hg2.
    - destruct (first_missing module) as [g|] eqn:E; [done|]. intros _.
      apply first_missing_None in E. unfold valid in E.
      by rewrite forallb_forall in E. }
  split; [|split; [exact Hpass|split]].
  - change ["params"; "initialize"; "finalize"; "update"] with required_functions.
    rewrite validate_module_eq. split.
    + intros (f & Hin & Hf).
      destruct (first_missing module) as [g|] eqn:E.
      * destruct (first_missing_Some _ _ E) as [Hg1 Hg2].
        exists g. repeat split; try done.
        -- unfold missing_function_msg. do 2 apply is_substring_skip.
           apply is_substring_append.
        -- apply is_substring_append.
      * apply first_missing_None in E. unfold valid in E.
        rewrite forallb_forall in E. by rewrite (E f Hin) in Hf.
    + intros (f & Hin & Hf & _). eauto.
  - intros before f after Hsplit Hbefore Hf.
    assert (Hyes : forall g, In g before -> hasattr module g = true).
    { intros g Hg. rewrite hasattr_required.
      - apply bool_decide_eq_true. apply list_elem_of_In. by apply Hbefore.
      - rewrite Hsplit. apply in_or_app. by left. }
    assert (Hno : hasattr module f = false).
    { rewrite hasattr_required.
      - apply bool_decide_eq_false. intros Hin. apply Hf. by apply list_elem_of_In.
      - rewrite Hsplit. apply in_or_app. right. by left. }
    unfold validate_module, required_functions.
    rewrite Hsplit. clear Hsplit Hbefore Hf.
    induction before as [|g before IH]; simpl.
    + by rewrite Hno.
    + rewrite (Hyes g) by (by left). apply IH. intros g' Hg'. apply Hyes. by right.
  - rewrite <- Hpass. split.
    + intros Hall f Hin. rewrite hasattr_required by done.
      apply bool_decide_eq_true. apply list_elem_of_In. by apply Hall.
    + intros Hall f Hin. specialize (Hall f Hin).
      rewrite hasattr_required in Hall by done.
      apply bool_decide_eq_true in Hall. by apply list_elem_of_In.
Qed.

(** ** Resolution of one name *)

Lemma import_named_eq (module_folder module_name : string) :
  import_named module_folder module_name
  = match import_module (framework_path module_folder module_name) with
    | Some m => ([EvImport (framework_path module_folder module_name)], inr m)
    | None =>
        (fallback_trace module_folder module_name,
         match import_module module_name with
         | Some m => inr m
         | None => inl (ModuleNotFoundError (not_found_msg module_folder module_name))
         end)
    end.
Proof.
  unfold import_named, import, fallback_trace.
  destruct (import_module (framework_path module_folder module_name)); [done|].
  by destruct (import_module module_name).
Qed.

Lemma import_named_outcome (module_folder module_name : string) :
  outcome (import_named module_folder module_name)
  = match resolve module_folder module_name with
    | Some m => inr m
    | None => inl (ModuleNotFoundError (not_found_msg module_folder module_name))
    end.
Proof.
  rewrite import_named_eq. unfold resolve.
  destruct (import_module (framework_path module_folder module_name)); [done|].
  by destruct (import_module module_name).
Qed.

(** ** [load_modules_from_directory] *)

Lemma load_loop_cons (module_folder module_name : string) rest acc :
  outcome (load_loop module_folder (module_name :: rest) acc)
  = match resolve module_folder module_name with
    | Some m =>
        match first_missing m with
        | None => outcome (load_loop module_folder rest (acc ++ [m]))
        | Some f => inl (AttributeError (missing_function_msg m f) custom_modules_hint)
        end
    | None => inl (ModuleNotFoundError (not_found_msg module_folder module_name))
    end.
Proof.
  cbn [load_loop]. rewrite bind_outcome, import_named_outcome.
  destruct (resolve module_folder module_name) as [m|]; [|done].
  rewrite bind_outcome, validate_module_eq. by destruct (first_missing m).
Qed.

Lemma load_loop_ok (module_folder : string) names ms acc :
  Forall2 (fun n m => resolve module_folder n = Some m) names ms ->
  Forall (fun m => valid m = true) ms ->
  outcome (load_loop module_folder names acc) = inr (acc ++ ms).
Proof.
  intros Hres. revert acc.
  induction Hres as [|n m names ms Hn _ IH]; intros acc Hval.
  - by rewrite app_nil_r.
  - apply Forall_cons in Hval as [Hm Hval].
    rewrite load_loop_cons, Hn.
    apply first_missing_None in Hm. rewrite Hm, IH by done.
    by rewrite <- app_assoc.
Qed.

Lemma load_loop_inv (module_folder : string) names acc l :
  outcome (load_loop module_folder names acc) = inr l ->
  exists ms, Forall2 (fun n m => resolve module_folder n = Some m) names ms
             /\ Forall (fun m => valid m = true) ms
             /\ l = acc ++ ms.
Proof.
  revert acc. induction names as [|n names IH]; intros acc.
  - intros [= <-]. exists []. by rewrite app_nil_r.
  - rewrite load_loop_cons.
    destruct (resolve module_folder n) as [m|] eqn:Hn; [|done].
    destruct (first_missing m) eqn:Hm; [done|].
    intros (ms & Hres & Hval & ->)%IH.
    exists (m :: ms). split_and!.
    + by constructor.
    + constructor; [by apply first_missing_None|done].
    + by rewrite <- app_assoc.
Qed.

Lemma load_loop_not_found (module_folder : string) pre ms name post acc :
  Forall2 (fun n m => resolve module_folder n = Some m) pre ms ->
  Forall (fun m => valid m = true) ms ->
  resolve module_folder name = None ->
  outcome (load_loop module_folder (pre ++ name :: post) acc)
  = inl (ModuleNotFoundError (not_found_msg module_folder name)).
Proof.
  intros Hres. revert acc.
  induction Hres as [|n m names ms' Hn _ IH]; intros acc Hval Hname.
  - simpl app. by rewrite load_loop_cons, Hname.
  - apply Forall_cons in Hval as [Hm Hval].
    simpl app. rewrite load_loop_cons, Hn.
    apply first_missing_None in Hm. rewrite Hm. by apply IH.
Qed.

Lemma resolved_unique (module_folder : string) names ms ms' :
  Forall2 (fun n m => resolve module_folder n = Some m) names ms ->
  Forall2 (fun n m => resolve module_folder n = Some m) names ms' ->
  ms = ms'.
Proof.
  intros H. revert ms'. induction H as [|n m names ms Hn _ IH]; intros ms' H'.
  - by inversion H'.
  - inversion H' as [|? m' ? ms'' Hn' Hrest]; subst.
    f_equal; [congruence|by apply IH].
Qed.

Lemma framework_path_not_relative (module_folder module_name : string) :
  String.prefix "." ("igm.modules." +:+ module_folder +:+ "." +:+ module_name) = false.
Proof. reflexivity. Qed.

Lemma framework_path_not_empty (module_folder module_name : string) :
  String.eqb ("igm.modules." +:+ module_folder +:+ "." +:+ module_name) "" = false.
Proof. reflexivity. Qed.

Lemma import_named_raising_eq (import_outcome : string -> exn + Module)
    (module_folder module_name : string) :
  import_named_raising import_outcome module_folder module_name
  = let module_path := "igm.modules." +:+ module_folder +:+ "." +:+ module_name in
    match import_outcome module_path with
    | inr module => ([EvImport module_path], inr module)
    | inl (ModuleNotFoundError _) =>
        ([EvImport module_path;
          EvLogInfo ("Error importing module: " +:+ module_path
                     +:+ ", checking for custom package in current working directory.");
          EvLogInfo ("Trying to import custom module from current working directory (folder or .py): "
                     +:+ module_name);
          EvImport module_name],
         if String.prefix "." module_name then inl TypeError
         else if String.eqb module_name "" then inl (ValueError "Empty module name")
         else match import_outcome module_name with
              | inr module => inr module
              | inl (ModuleNotFoundError _) =>
                  inl (ModuleNotFoundError
                         ("Can not find module " +:+ module_name
                          +:+ ". Make sure it is either in the 1) " +:+ igm_parent
                          +:+ "/modules/" +:+ module_folder
                          +:+ " directory or 2) in your current working directory."))
              | inl e => inl e
              end)
    | inl e => ([EvImport module_path], inl e)
    end.
Proof.
  unfold import_named_raising, import_module_raising. cbv zeta.
  rewrite framework_path_not_relative, framework_path_not_empty.
  destruct (import_outcome ("igm.modules." +:+ module_folder +:+ "." +:+ module_name))
    as [[]|m]; try done.
  destruct (String.prefix "." module_name); [done|].
  destruct (String.eqb module_name ""); [done|].
  by destruct (import_outcome module_name) as [[]|m'].
Qed.

Lemma load_loop_raising_fails (import_outcome : string -> exn + Module)
    (module_folder : string) pre ms name post acc e :
  Forall2 (fun n m => outcome (import_named_raising import_outcome module_folder n)
                      = inr m) pre ms ->
  Forall (fun m => valid m = true) ms ->
  outcome (import_named_raising import_outcome module_folder name) = inl e ->
  outcome (load_loop_raising import_outcome module_folder (pre ++ name :: post) acc)
  = inl e.
Proof.
  intros Hres. revert acc.
  induction Hres as [|n m names ms' Hn _ IH]; intros acc Hval Hname.
  - simpl app. cbn [load_loop_raising]. by rewrite bind_outcome, Hname.
  - apply Forall_cons in Hval as [Hm Hval].
    simpl app. cbn [load_loop_raising]. rewrite bind_outcome, Hn, bind_outcome.
    rewrite (validate_module_valid _ Hm). by apply IH.
Qed.

(** On names that are neither empty nor relative, the loader that lets any
    exception through does what the two-outcome loader does. *)
Lemma import_named_raising_agrees (module_folder module_name : string) :
  module_name <> "" -> String.prefix "." module_name = false ->
  import_named_raising import_module_outcome module_folder module_name
  = import_named module_folder module_name.
Proof.
  intros Hne Hrel. rewrite import_named_raising_eq, import_named_eq. cbv zeta.
  unfold import_module_outcome, fallback_trace, not_found_msg, framework_dir,
    framework_path. rewrite !append_assoc.
  destruct (import_module ("igm.modules." +:+ module_folder +:+ "." +:+ module_name));
    [done|].
  rewrite Hrel. apply String.eqb_neq in Hne. rewrite Hne.
  by destruct (import_module module_name).
Qed.

(** C6 (amended).  A name is imported from the framework namespace of its
    category first, and the bare name is imported only when that import
    raises [ModuleNotFoundError]; when the second import raises
    [ModuleNotFoundError] too, the loader raises [ModuleNotFoundError] with
    a message naming the module, the framework directory of the category and
    the current working directory.  Every other exception of either import
    leaves the loader unchanged: [ValueError] for the empty name and
    [TypeError] for a name that starts with a dot, both from the second
    import.  The error of the first name that fails is the error of
    [load_modules_from_directory], and on names that are neither empty nor
    relative the two-outcome loader used in the rest of the development
    does the same. *)
Theorem import_named_search_order (import_outcome : string -> exn + Module)
    (module_folder module_name : string) :
  import_named_raising import_outcome module_folder module_name
  = (let module_path := "igm.modules." +:+ module_folder +:+ "." +:+ module_name in
     match import_outcome module_path with
     | inr module => ([EvImport module_path], inr module)
     | inl (ModuleNotFoundError _) =>
         ([EvImport module_path;
           EvLogInfo ("Error importing module: " +:+ module_path
                      +:+ ", checking for custom package in current working directory.");
           EvLogInfo ("Trying to import custom module from current working directory (folder or .py): "
                      +:+ module_name);
           EvImport module_name],
          if String.prefix "." module_name then inl TypeError
          else if String.eqb module_name "" then inl (ValueError "Empty module name")
          else match import_outcome module_name with
               | inr module => inr module
               | inl (ModuleNotFoundError _) =>
                   inl (ModuleNotFoundError
                          ("Can not find module " +:+ module_name
                           +:+ ". Make sure it is either in the 1) " +:+ igm_parent
                           +:+ "/modules/" +:+ module_folder
                           +:+ " directory or 2) in your current working directory."))
               | inl e => inl e
               end)
     | inl e => ([EvImport module_path], inl e)
     end)
  /\ is_substring (igm_parent +:+ "/modules/" +:+ module_folder)
       ("Can not find module " +:+ module_name
        +:+ ". Make sure it is either in the 1) " +:+ igm_parent
        +:+ "/modules/" +:+ module_folder
        +:+ " directory or 2) in your current working directory.") = true
  /\ is_substring "current working directory"
       ("Can not find module " +:+ module_name
        +:+ ". Make sure it is either in the 1) " +:+ igm_parent
        +:+ "/modules/" +:+ module_folder
        +:+ " directory or 2) in your current working directory.") = true
  /\ (forall pre ms post e,
        Forall2 (fun n m => outcome (import_named_raising import_outcome module_folder n)
                            = inr m) pre ms ->
        Forall (fun m => forall f, In f ["params"; "initialize"; "finalize"; "update"]
                                   -> In f (mod_attrs m)) ms ->
        outcome (import_named_raising import_outcome module_folder module_name) = inl e ->
        outcome (load_modules_from_directory_raising import_outcome
                   (pre ++ module_name :: post) module_folder)
        = inl e)
  /\ (module_name <> "" -> String.prefix "." module_name = false ->
      import_named_raising import_module_outcome module_folder module_name
      = import_named module_folder module_name).
Proof.
  split_and!.
  - apply import_named_raising_eq.
  - do 3 apply is_substring_skip.
    rewrite <- (append_assoc "/modules/" module_folder).
    rewrite <- (append_assoc igm_parent ("/modules/" +:+ module_folder)).
    apply is_substring_here.
  - do 6 apply is_substring_skip.
    apply (is_substring_append " directory or 2) in your "
             "current working directory" ".").
  - intros pre ms post e Hres Hval Hname.
    apply load_loop_raising_fails with ms; try done.
    eapply Forall_impl; [exact Hval|]. intros m Hm. unfold valid.
    apply forallb_forall. intros f Hf. rewrite hasattr_required by done.
    apply bool_decide_eq_true. apply list_elem_of_In. by apply Hm.
  - apply import_named_raising_agrees.
Qed.

(** C1.  When every name of the three lists resolves, the pipeline that
    [load_modules] returns is the resolved [preproc] list, then the resolved
    [process] list, then the resolved [postproc] list, each in the order of
    its names; it is returned as soon as the resolved modules pass
    validation. *)
Theorem load_modules_concatenates (d : modules_dict) (pre proc post : list Module) :
  Forall2 (fun n m => resolve "preproc" n = Some m) (modules_preproc d) pre ->
  Forall2 (fun n m => resolve "process" n = Some m) (modules_process d) proc ->
  Forall2 (fun n m => resolve "postproc" n = Some m) (modules_postproc d) post ->
  (forall l, outcome (load_modules d) = inr l -> l = pre ++ proc ++ post)
  /\ (forallb valid (pre ++ proc ++ post) = true ->
      outcome (load_modules d) = inr (pre ++ proc ++ post)).
Proof.
  intros Hpre Hproc Hpost. unfold load_modules, load_modules_from_directory. split.
  - intros l. rewrite bind_outcome.
    destruct (outcome (load_loop "preproc" _ [])) as [|l1] eqn:E1; [done|].
    rewrite bind_outcome.
    destruct (outcome (load_loop "process" _ [])) as [|l2] eqn:E2; [done|].
    rewrite bind_outcome.
    destruct (outcome (load_loop "postproc" _ [])) as [|l3] eqn:E3; [done|].
    intros [= <-].
    apply load_loop_inv in E1 as (ms1 & H1 & _ & ->).
    apply load_loop_inv in E2 as (ms2 & H2 & _ & ->).
    apply load_loop_inv in E3 as (ms3 & H3 & _ & ->).
    simpl. by rewrite (resolved_unique _ _ _ _ H1 Hpre),
      (resolved_unique _ _ _ _ H2 Hproc), (resolved_unique _ _ _ _ H3 Hpost).
  - rewrite !forallb_app, !andb_true_iff, !forallb_forall.
    intros (V1 & V2 & V3).
    rewrite bind_outcome, (load_loop_ok _ _ pre) by (done || by apply List.Forall_forall).
    rewrite bind_outcome, (load_loop_ok _ _ proc) by (done || by apply List.Forall_forall).
    rewrite bind_outcome, (load_loop_ok _ _ post) by (done || by apply List.Forall_forall).
    done.
Qed.

(** ** Dependency expansion *)

Lemma try_except_outcome {A} (c h : M A) :
  outcome (try_except_ModuleNotFoundError c h)
  = match outcome c with
    | inl (ModuleNotFoundError _) => outcome h
    | o => o
    end.
Proof. destruct c as [tr [[]|]]; cbn; try done. by destruct h. Qed.

(** One turn of the loop over the directories. *)
Lemma search_directories_cons deps (directory : string) rest acc :
  outcome (search_directories deps (directory :: rest) acc)
  = match outcome (load_modules_from_directory deps directory) with
    | inr [] => inl IndexError
    | inr (m :: _) => inr (set_add m acc)
    | inl (ModuleNotFoundError _) => outcome (search_directories deps rest acc)
    | inl e => inl e
    end.
Proof.
  cbn [search_directories]. rewrite try_except_outcome, bind_outcome.
  destruct (outcome (load_modules_from_directory deps directory)) as [e|[|m l]].
  - destruct e; try done. by rewrite bind_outcome.
  - done.
  - done.
Qed.

Lemma first_found_cons2 (module_folder name : string) rest :
  first_found (framework_path module_folder name :: name :: rest)
  = match resolve module_folder name with
    | Some m => Some m
    | None => first_found rest
    end.
Proof.
  unfold resolve. simpl.
  destruct (import_module (framework_path module_folder name)); [done|].
  by destruct (import_module name).
Qed.

(** The search for a single dependency name over any list of categories. *)
Lemma search_directories_single (name : string) directories acc :
  outcome (search_directories [name] directories acc)
  = match first_found (flat_map (fun d => [framework_path d name; name]) directories) with
    | Some m =>
        match first_missing m with
        | None => inr (set_add m acc)
        | Some f => inl (AttributeError (missing_function_msg m f) custom_modules_hint)
        end
    | None => inr acc
    end.
Proof.
  induction directories as [|d rest IH]; [done|].
  rewrite search_directories_cons. unfold load_modules_from_directory.
  rewrite load_loop_cons. cbn [flat_map app]. rewrite first_found_cons2.
  destruct (resolve d name) as [m|]; [|done].
  by destruct (first_missing m).
Qed.

(** What one search can do to the set: nothing, or one insertion. *)
Lemma search_directories_result deps directories acc s :
  outcome (search_directories deps directories acc) = inr s ->
  s = acc \/ exists m, s = set_add m acc.
Proof.
  induction directories as [|d rest IH].
  - intros [= <-]. by left.
  - rewrite search_directories_cons.
    destruct (outcome (load_modules_from_directory deps d)) as [e|[|m l]].
    + by destruct e.
    + done.
    + intros [= <-]. right. by exists m.
Qed.

Lemma set_add_incl (m : Module) (s : list Module) x : In x s -> In x (set_add m s).
Proof.
  unfold set_add. case_decide; [done|]. intros ?. apply in_or_app. by left.
Qed.

Lemma set_add_In (m : Module) (s : list Module) : In m (set_add m s).
Proof.
  unfold set_add. case_decide as H.
  - by apply list_elem_of_In.
  - apply in_or_app. right. by left.
Qed.

Lemma set_add_NoDup (m : Module) (s : list Module) :
  List.NoDup s -> List.NoDup (set_add m s).
Proof.
  unfold set_add. case_decide as H; [done|]. intros Hs.
  apply NoDup_ListNoDup. apply NoDup_ListNoDup in Hs.
  apply NoDup_app. split_and!; [done| |apply NoDup_singleton].
  intros x Hx ->%list_elem_of_singleton. done.
Qed.

Lemma dependencies_loop_cons (module : Module) rest acc :
  outcome (dependencies_loop (module :: rest) acc)
  = match mod_dependencies module with
    | Some deps =>
        match outcome (search_directories deps directories_to_search acc) with
        | inl e => inl e
        | inr s => outcome (dependencies_loop rest s)
        end
    | None => outcome (dependencies_loop rest acc)
    end.
Proof.
  cbn [dependencies_loop]. unfold has_dependencies, hasattr. simpl String.eqb.
  destruct (mod_dependencies module) as [deps|].
  - rewrite bool_decide_eq_true_2 by eauto. by rewrite bind_outcome.
  - rewrite bool_decide_eq_false_2; [done|]. by intros [? [=]].
Qed.

(** The set only grows, and stays duplicate-free. *)
Lemma dependencies_loop_grows modules acc s :
  outcome (dependencies_loop modules acc) = inr s ->
  (forall x, In x acc -> In x s) /\ (List.NoDup acc -> List.NoDup s).
Proof.
  revert acc. induction modules as [|module rest IH]; intros acc.
  - by intros [= <-].
  - rewrite dependencies_loop_cons.
    destruct (mod_dependencies module) as [deps|]; [|apply IH].
    destruct (outcome (search_directories _ _ _)) as [|s'] eqn:E; [done|].
    intros [Hin Hnd]%IH.
    apply search_directories_result in E as [->|[m ->]]; [done|].
    split.
    + intros x Hx. by apply Hin, set_add_incl.
    + intros Hacc. by apply Hnd, set_add_NoDup.
Qed.

(** A module declaring the single dependency [name] puts the module found
    for [name] into the set. *)
Lemma dependencies_loop_adds modules acc s (module md : Module) (name : string) :
  In module modules ->
  mod_dependencies module = Some [name] ->
  first_found (lookup_order name) = Some md ->
  outcome (dependencies_loop modules acc) = inr s ->
  In md s.
Proof.
  intros Hin Hdeps Hfound. revert acc.
  induction modules as [|m0 rest IH]; intros acc; [done|].
  rewrite dependencies_loop_cons.
  destruct Hin as [->|Hin].
  - rewrite Hdeps, search_directories_single.
    change (flat_map _ directories_to_search) with (lookup_order name).
    rewrite Hfound. destruct (first_missing md); [done|].
    intros [Hs _]%dependencies_loop_grows. apply Hs, set_add_In.
  - destruct (mod_dependencies m0) as [deps|]; [|by apply IH].
    destruct (outcome (search_directories _ _ _)) as [|s']; [done|]. by apply IH.
Qed.

Lemma add_dependencies_outcome (imported_modules : list Module) :
  outcome (add_dependencies imported_modules)
  = match outcome (dependencies_loop imported_modules []) with
    | inl e => inl e
    | inr s => inr (imported_modules ++ set_order s)
    end.
Proof. unfold add_dependencies. by rewrite bind_outcome. Qed.

Lemma imports_app (tr1 tr2 : list event) :
  imports (tr1 ++ tr2) = imports tr1 ++ imports tr2.
Proof.
  induction tr1 as [|[] tr1 IH]; simpl; [done|by rewrite IH|done|done].
Qed.

Lemma try_except_trace {A} (c h : M A) :
  trace (try_except_ModuleNotFoundError c h)
  = trace c ++ match outcome c with
               | inl (ModuleNotFoundError _) => trace h
               | _ => []
               end.
Proof.
  destruct c as [tr [[]|]]; cbn; try by rewrite app_nil_r. by destruct h.
Qed.

Lemma validate_module_trace (module : Module) : trace (validate_module module) = [].
Proof. rewrite validate_module_eq. by destruct (first_missing module). Qed.

Lemma load_single_imports (name directory : string) :
  imports (trace (load_modules_from_directory [name] directory))
  = match import_module (framework_path directory name) with
    | Some _ => [framework_path directory name]
    | None => [framework_path directory name; name]
    end.
Proof.
  unfold load_modules_from_directory. cbn [load_loop].
  rewrite bind_trace, imports_app, import_named_eq.
  destruct (import_module (framework_path directory name)) as [m|].
  - cbn [trace outcome fst snd]. rewrite bind_trace, validate_module_trace.
    by destruct (outcome (validate_module m)).
  - destruct (import_module name) as [m|]; cbn [trace outcome fst snd]; [|done].
    rewrite bind_trace, validate_module_trace.
    by destruct (outcome (validate_module m)).
Qed.

Lemma load_single_outcome (name directory : string) :
  outcome (load_modules_from_directory [name] directory)
  = match resolve directory name with
    | Some m =>
        match first_missing m with
        | None => inr [m]
        | Some f => inl (AttributeError (missing_function_msg m f) custom_modules_hint)
        end
    | None => inl (ModuleNotFoundError (not_found_msg directory name))
    end.
Proof.
  unfold load_modules_from_directory. rewrite load_loop_cons.
  destruct (resolve directory name) as [m|]; [|done]. by destruct (first_missing m).
Qed.

(** The imports attempted by the search for one name: the framework path
    of each category followed by the bare name, until a module is found. *)
Lemma search_directories_single_imports (name : string) directories acc :
  imports (trace (search_directories [name] directories acc))
  = until_found (flat_map (fun d => [framework_path d name; name]) directories).
Proof.
  induction directories as [|d rest IH]; [done|].
  cbn [search_directories]. rewrite try_except_trace, imports_app.
  rewrite bind_outcome, bind_trace, imports_app, load_single_imports.
  rewrite load_single_outcome. unfold resolve. cbn [flat_map app until_found].
  destruct (import_module (framework_path d name)) as [m|].
  - destruct (first_missing m); cbn; done.
  - destruct (import_module name) as [m|].
    + destruct (first_missing m); cbn; done.
    + cbn [imports app]. rewrite bind_trace, imports_app. cbn. by rewrite IH.
Qed.

(** C3 (amended).  The search for one dependency name tries the [preproc]
    namespace, the working directory, the [process] namespace, the working
    directory again, the [postproc] namespace and the working directory
    again, stops at the first import that succeeds, and takes that module. *)
Theorem dependency_search_order (name : string) (acc : list Module) :
  imports (trace (search_directories [name] directories_to_search acc))
  = until_found (lookup_order name)
  /\ outcome (search_directories [name] directories_to_search acc)
     = match first_found (lookup_order name) with
       | Some m =>
           match first_missing m with
           | None => inr (set_add m acc)
           | Some f => inl (AttributeError (missing_function_msg m f)
                                           custom_modules_hint)
           end
       | None => inr acc
       end.
Proof.
  split.
  - apply search_directories_single_imports.
  - apply search_directories_single.
Qed.

(** Expansion returns when every module declares no dependency or a single
    one that is either found nowhere or found and valid. *)
Lemma dependencies_loop_returns modules acc :
  Forall (fun m => match mod_dependencies m with
                   | None => True
                   | Some [name] =>
                       match first_found (lookup_order name) with
                       | Some md => valid md = true
                       | None => True
                       end
                   | Some _ => False
                   end) modules ->
  exists s, outcome (dependencies_loop modules acc) = inr s.
Proof.
  intros H. revert acc. induction H as [|m rest Hm _ IH]; intros acc.
  - by exists acc.
  - rewrite dependencies_loop_cons.
    destruct (mod_dependencies m) as [[|name [|]]|]; try done.
    rewrite search_directories_single.
    change (flat_map _ directories_to_search) with (lookup_order name).
    destruct (first_found (lookup_order name)) as [md|]; [|done].
    apply first_missing_None in Hm. by rewrite Hm.
Qed.

(** C10.  Whatever expansion returns starts with the input list, unchanged
    and in its order; the dependencies come after it. *)
Theorem add_dependencies_keeps_prefix (imported_modules l : list Module) :
  outcome (add_dependencies imported_modules) = inr l ->
  firstn (length imported_modules) l = imported_modules
  /\ exists deps, l = imported_modules ++ deps.
Proof.
  rewrite add_dependencies_outcome.
  destruct (outcome (dependencies_loop imported_modules [])) as [|s]; [done|].
  intros [= <-]. split; [|by eauto].
  by rewrite take_app_length.
Qed.

(** A single dependency that is found nowhere leaves the set as it was and
    lets the expansion go on with the next module. *)
Lemma unfound_dependency_is_skipped (module : Module) (name : string) rest acc :
  mod_dependencies module = Some [name] ->
  first_found (lookup_order name) = None ->
  outcome (dependencies_loop (module :: rest) acc)
  = outcome (dependencies_loop rest acc).
Proof.
  intros Hdeps Hnone. rewrite dependencies_loop_cons, Hdeps.
  rewrite search_directories_single.
  change (flat_map _ directories_to_search) with (lookup_order name).
  by rewrite Hnone.
Qed.

(** The iteration order of a set lists each of its elements once. *)
Hypothesis set_order_perm : forall s, Permutation (set_order s) s.

(** C5 (amended).  When two distinct modules of the input each declare the
    single dependency [name], and [name] is found, the part that expansion
    appends contains the found module exactly once; the whole list
    contains it once more than the input list did. *)
Theorem shared_dependency_added_once (imported_modules l : list Module)
    (m1 m2 md : Module) (name : string) :
  In m1 imported_modules -> In m2 imported_modules -> m1 <> m2 ->
  mod_dependencies m1 = Some [name] ->
  mod_dependencies m2 = Some [name] ->
  first_found (lookup_order name) = Some md ->
  outcome (add_dependencies imported_modules) = inr l ->
  count_occ Module_eq_dec (skipn (length imported_modules) l) md = 1
  /\ count_occ Module_eq_dec l md
     = count_occ Module_eq_dec imported_modules md + 1.
Proof.
  intros Hin1 _ _ Hd1 _ Hfound. rewrite add_dependencies_outcome.
  destruct (outcome (dependencies_loop imported_modules [])) as [|s] eqn:E; [done|].
  intros [= <-].
  assert (Hone : count_occ Module_eq_dec (set_order s) md = 1).
  { rewrite (proj1 (Permutation_count_occ Module_eq_dec (set_order s) s)
               (set_order_perm s) md).
    apply NoDup_count_occ'.
    - apply (dependencies_loop_grows _ _ _ E). constructor.
    - exact (dependencies_loop_adds _ _ _ m1 md name Hin1 Hd1 Hfound E). }
  split.
  - by rewrite drop_app_length.
  - by rewrite count_occ_app, Hone.
Qed.

(** ** The parameter override *)

Lemma existsb_is_str (key : string) (items : list json) :
  existsb (is_str key) items = true <-> In (JStr key) items.
Proof.
  rewrite existsb_exists. split.
  - intros (v & Hin & Hv). destruct v; try done.
    simpl in Hv. apply String.eqb_eq in Hv. by subst.
  - intros Hin. exists (JStr key). split; [done|]. simpl. apply String.eqb_refl.
Qed.

Lemma py_in_trace (key : string) (v : json) : trace (py_in key v) = [].
Proof. by destruct v. Qed.

Lemma warn_unknown_eq (LIST : gset string) (keys : list string) :
  warn_unknown LIST keys
  = (map (fun key => EvPrint (unknown_key_msg key))
       (List.filter (fun key => negb (bool_decide (key ∈ LIST))) keys),
     inr tt).
Proof.
  induction keys as [|key rest IH]; [done|].
  cbn [warn_unknown List.filter]. rewrite IH.
  by destruct (bool_decide (key ∈ LIST)).
Qed.

Lemma bind_value_nil {A B} (a : A) (k : A -> M B) : ((([], inr a) : M A) ≫= k) = k a.
Proof. cbn. by destruct (k a). Qed.

(** [parse_args] prints nothing and either exits with status 2 or returns. *)
Lemma parse_args_cases (parser : gmap string option_action) :
  parse_args parser = ([], inl (SystemExitCode 2))
  \/ (parse_args parser = ([], inr (omap namespace_value parser))
      /\ map_Forall (fun _ a => parses a = true) parser).
Proof.
  unfold parse_args. case_bool_decide; [right|left]; done.
Qed.

Lemma parse_args_value (parser : gmap string option_action) ns :
  outcome (parse_args parser) = inr ns -> parse_args parser = ([], inr ns).
Proof.
  destruct (parse_args_cases parser) as [->|[-> _]]; [done|]. by intros [= <-].
Qed.

Lemma parse_args_error (parser : gmap string option_action) e :
  outcome (parse_args parser) = inl e ->
  e = SystemExitCode 2 /\ parse_args parser = ([], inl (SystemExitCode 2)).
Proof.
  destruct (parse_args_cases parser) as [->|[-> _]]; [|done]. by intros [= <-].
Qed.

(** The namespace has exactly the options of the parser. *)
Lemma parse_args_dom (parser : gmap string option_action) ns :
  outcome (parse_args parser) = inr ns -> dom ns = dom parser.
Proof.
  destruct (parse_args_cases parser) as [->|[-> Hall]]; [done|].
  intros [= <-]. apply set_eq. intros key.
  rewrite !elem_of_dom, lookup_omap.
  destruct (parser !! key) as [a|] eqn:Ha; simpl.
  - specialize (Hall key a Ha). unfold parses in Hall.
    apply andb_true_iff in Hall as [_ Hv%bool_decide_eq_true_1].
    split; [by eauto|done].
  - split; by intros [? [=]].
Qed.

(** The function once [parse_args] returns a namespace with a string
    [working_dir]. *)
Lemma overide_ready (parser : gmap string option_action) (check : bool)
    (json_text : text) ns (wd : string) :
  outcome (parse_args parser) = inr ns ->
  ns !! "working_dir" = Some (JStr wd) ->
  overide_from_json_file parser check json_text
  = match json_loads (Text.remove_comments json_text) with
    | inl e => ([EvPrint ("Error decoding JSON: " +:+ e)], inl UnboundLocalError)
    | inr dic_params => apply_dic_params parser (dom parser) check dic_params
    end.
Proof.
  intros Hns Hwd. unfold overide_from_json_file.
  rewrite (parse_args_value _ _ Hns), bind_value_nil.
  unfold namespace_attr. rewrite Hwd, bind_ret_l. cbn [os_path_join].
  rewrite bind_ret_l. cbv zeta.
  destruct (json_loads (Text.remove_comments json_text)) as [e|dic].
  - done.
  - by rewrite bind_ret_l, bind_value_nil, (parse_args_dom _ _ Hns).
Qed.

Lemma apply_dic_params_eq (parser : gmap string option_action) (LIST : gset string)
    (check : bool) members v :
  dict_get "modules_process" members = Some v ->
  apply_dic_params parser LIST check (JObj members)
  = match outcome (py_in "time_step" v) with
    | inl e => ([], inl e)
    | inr true => ([EvPrint wiki_banner], inl (SystemExit deprecation_msg))
    | inr false =>
        (if check then warn_unknown LIST (map fst members) else ret tt) ;;
        ret (set_defaults parser
               (List.filter (fun kv => bool_decide (fst kv ∈ LIST)) members))
    end.
Proof.
  intros Hget. unfold apply_dic_params. cbn [subscript]. rewrite Hget.
  destruct v as [| | |s|items|ms]; cbn; try done.
  - destruct (is_substring "time_step" s); [done|]. by destruct (_ ≫= _).
  - destruct (existsb _ items); [done|]. by destruct (_ ≫= _).
  - destruct (existsb _ ms); [done|]. by destruct (_ ≫= _).
Qed.

Lemma apply_dic_params_outcome (parser : gmap string option_action)
    (LIST : gset string) (check : bool) (dic_params : json) :
  outcome (apply_dic_params parser LIST check dic_params)
  = match outcome (subscript dic_params "modules_process") with
    | inl e => inl e
    | inr v =>
        match outcome (py_in "time_step" v) with
        | inl e => inl e
        | inr true => inl (SystemExit deprecation_msg)
        | inr false =>
            inr (set_defaults parser
                   (List.filter (fun kv => bool_decide (fst kv ∈ LIST))
                      (match dic_params with JObj ms => ms | _ => [] end)))
        end
    end.
Proof.
  unfold apply_dic_params. rewrite bind_outcome.
  destruct (outcome (subscript dic_params "modules_process")) as [|v]; [done|].
  rewrite bind_outcome.
  destruct (outcome (py_in "time_step" v)) as [|[]]; [done|done|].
  rewrite bind_outcome. destruct check; by rewrite ?warn_unknown_eq.
Qed.

(** The outcome of the whole function. *)
Lemma overide_outcome (parser : gmap string option_action) (check : bool)
    (json_text : text) :
  outcome (overide_from_json_file parser check json_text)
  = match outcome (parse_args parser) with
    | inl e => inl e
    | inr ns =>
        match ns !! "working_dir" with
        | None => inl (NamespaceAttributeError "working_dir")
        | Some (JStr _) =>
            match json_loads (Text.remove_comments json_text) with
            | inl _ => inl UnboundLocalError
            | inr dic_params =>
                outcome (apply_dic_params parser (dom parser) check dic_params)
            end
        | Some _ => inl TypeError
        end
    end.
Proof.
  destruct (outcome (parse_args parser)) as [e|ns] eqn:Hns.
  - apply parse_args_error in Hns as [-> Hp].
    unfold overide_from_json_file. by rewrite Hp.
  - destruct (ns !! "working_dir") as [w|] eqn:Hwd.
    + destruct w as [| | |wd| |];
        try (unfold overide_from_json_file;
             rewrite (parse_args_value _ _ Hns), bind_value_nil;
             unfold namespace_attr; by rewrite Hwd, bind_ret_l).
      rewrite (overide_ready _ _ _ _ _ Hns Hwd).
      by destruct (json_loads (Text.remove_comments json_text)).
    + unfold overide_from_json_file.
      rewrite (parse_args_value _ _ Hns), bind_value_nil.
      unfold namespace_attr. by rewrite Hwd.
Qed.

(** The run exits with a message only through the deprecation check. *)
Lemma overide_exit_inv (parser : gmap string option_action) (check : bool)
    (json_text : text) (msg : string) :
  outcome (overide_from_json_file parser check json_text) = inl (SystemExit msg) ->
  msg = deprecation_msg
  /\ exists members v,
      json_loads (Text.remove_comments json_text) = inr (JObj members)
      /\ dict_get "modules_process" members = Some v
      /\ outcome (py_in "time_step" v) = inr true.
Proof.
  rewrite overide_outcome.
  destruct (outcome (parse_args parser)) as [e|ns] eqn:Hns.
  { by apply parse_args_error in Hns as [-> _]. }
  destruct (ns !! "working_dir") as [[| | |wd| |]|]; try done.
  destruct (json_loads (Text.remove_comments json_text)) as [|dic] eqn:Hload; [done|].
  rewrite apply_dic_params_outcome.
  destruct dic as [| | | | |members]; try done. cbn [subscript].
  destruct (dict_get "modules_process" members) as [v|] eqn:Hget; [|done].
  cbn [outcome ret snd].
  destruct (outcome (py_in "time_step" v)) as [e|[]] eqn:Hin.
  - intros [= ->]. by destruct v.
  - intros [= <-]. split; [done|]. by exists members, v.
  - done.
Qed.

(** The core parser always parses, with the empty working directory. *)
Lemma parse_args_params_core (py_int str2bool : string -> option json) :
  exists ns, outcome (parse_args (params_core py_int str2bool)) = inr ns
             /\ ns !! "working_dir" = Some (JStr "").
Proof. eexists. split; reflexivity. Qed.

(** C7.  When [parse_args] returns a namespace with a string [working_dir],
    a configuration whose [modules_process] list contains [time_step] makes
    the override step print the banner and exit with the deprecation message,
    which tells the user to update the parameter file.  In the run, where
    the step is applied to the core parser before the modules are loaded,
    this exit is all that happens: no module is imported.  Conversely the
    step exits with a message only when [time_step] is in [modules_process],
    so it never does for a list without it. *)
Theorem time_step_aborts (parser : gmap string option_action) (check : bool)
    (json_text : text) :
  (forall ns wd members items,
      outcome (parse_args parser) = inr ns ->
      ns !! "working_dir" = Some (JStr wd) ->
      json_loads (Text.remove_comments json_text) = inr (JObj members) ->
      dict_get "modules_process" members = Some (JArr items) ->
      In (JStr "time_step") items ->
      overide_from_json_file parser check json_text
      = ([EvPrint " ------- CHECK THE WIKI TO CHANGE YOUR PARAM FILE AND USER MODULES -------------"],
         inl (SystemExit "WARNING: the parameter time_step is deprecated, UPDATE you params.json file")))
  /\ (forall py_int str2bool names members items,
        json_loads (Text.remove_comments json_text) = inr (JObj members) ->
        dict_get "modules_process" members = Some (JArr items) ->
        In (JStr "time_step") items ->
        run_setup py_int str2bool check json_text names
        = ([EvPrint " ------- CHECK THE WIKI TO CHANGE YOUR PARAM FILE AND USER MODULES -------------"],
           inl (SystemExit "WARNING: the parameter time_step is deprecated, UPDATE you params.json file")))
  /\ (forall members items,
        json_loads (Text.remove_comments json_text) = inr (JObj members) ->
        dict_get "modules_process" members = Some (JArr items) ->
        ~ In (JStr "time_step") items ->
        forall msg,
          outcome (overide_from_json_file parser check json_text)
          <> inl (SystemExit msg))
  /\ (forall msg,
        outcome (overide_from_json_file parser check json_text) = inl (SystemExit msg) ->
        msg = "WARNING: the parameter time_step is deprecated, UPDATE you params.json file"
        /\ exists members v,
            json_loads (Text.remove_comments json_text) = inr (JObj members)
            /\ dict_get "modules_process" members = Some v
            /\ outcome (py_in "time_step" v) = inr true)
  /\ is_substring "UPDATE you params.json file"
       "WARNING: the parameter time_step is deprecated, UPDATE you params.json file"
     = true.
Proof.
  assert (Habort : forall p ns wd members items,
    outcome (parse_args p) = inr ns ->
    ns !! "working_dir" = Some (JStr wd) ->
    json_loads (Text.remove_comments json_text) = inr (JObj members) ->
    dict_get "modules_process" members = Some (JArr items) ->
    In (JStr "time_step") items ->
    overide_from_json_file p check json_text
    = ([EvPrint wiki_banner], inl (SystemExit deprecation_msg))).
  { intros p ns wd members items Hns Hwd Hload Hget Hin.
    rewrite (overide_ready _ _ _ _ _ Hns Hwd), Hload.
    rewrite (apply_dic_params_eq _ _ _ _ _ Hget). cbn [py_in outcome snd ret].
    apply existsb_is_str in Hin. by rewrite Hin. }
  split_and!.
  - apply Habort.
  - intros py_int str2bool names members items Hload Hget Hin.
    destruct (parse_args_params_core py_int str2bool) as (ns & Hns & Hwd).
    unfold run_setup. apply bind_raise.
    exact (Habort _ _ _ _ _ Hns Hwd Hload Hget Hin).
  - intros members items Hload Hget Hnot msg Hexit.
    apply overide_exit_inv in Hexit as (_ & ms & v & Hload' & Hget' & Hin).
    rewrite Hload in Hload'. injection Hload' as <-.
    rewrite Hget in Hget'. injection Hget' as <-.
    cbn in Hin. injection Hin as Hin. by apply Hnot, existsb_is_str.
  - apply overide_exit_inv.
  - done.
Qed.

Lemma dict_get_None (key : string) (members : list (string * json)) :
  ~ In key (map fst members) -> dict_get key members = None.
Proof.
  induction members as [|[k v] rest IH]; [done|]. simpl. intros Hnot.
  destruct (String.eqb_spec key k) as [->|_]; [by exfalso; apply Hnot; left|].
  apply IH. intros ?. apply Hnot. by right.
Qed.

Lemma set_default_lookup (p : gmap string option_action) (k : string) (v : json)
    (key : string) :
  set_default p (k, v) !! key
  = if String.eqb key k then Some (with_default v (p !! k)) else p !! key.
Proof.
  unfold set_default, with_default. cbn [fst snd].
  destruct (String.eqb_spec key k) as [->|Hne].
  - destruct (p !! k); apply lookup_insert_eq.
  - destruct (p !! k); by rewrite lookup_insert_ne.
Qed.

(** [set_defaults] after the filter: an entry of the dictionary is applied
    exactly when its key passes the filter. *)
Lemma set_defaults_filter_lookup (keep : string -> bool)
    (members : list (string * json)) (p : gmap string option_action)
    (key : string) :
  List.NoDup (map fst members) ->
  set_defaults p (List.filter (fun kv => keep (fst kv)) members) !! key
  = match dict_get key members with
    | Some x => if keep key then Some (with_default x (p !! key)) else p !! key
    | None => p !! key
    end.
Proof.
  revert p. induction members as [|[k v] rest IH]; intros p Hnd; [done|].
  simpl in Hnd. apply List.NoDup_cons_iff in Hnd as [Hk Hnd].
  cbn [List.filter fst dict_get].
  destruct (keep k) eqn:Hkeep.
  - unfold set_defaults. cbn [foldl].
    fold (set_defaults (set_default p (k, v))
            (List.filter (fun kv => keep (fst kv)) rest)).
    rewrite IH, set_default_lookup by done.
    destruct (String.eqb_spec key k) as [->|Hne].
    + by rewrite (dict_get_None _ _ Hk), Hkeep.
    + done.
  - rewrite IH by done.
    destruct (String.eqb_spec key k) as [->|Hne]; [|done].
    by rewrite (dict_get_None _ _ Hk), Hkeep.
Qed.

(** C8 (amended).  When [parse_args] returns a namespace with a string
    [working_dir], for a dictionary with distinct keys that passes the
    deprecation check the step returns normally; the printed warnings are
    those of the unregistered keys when [check_if_params_exist] is set and
    none otherwise; an entry is applied exactly when its key is registered,
    as the new default of that option; the key space of the result is that
    of the registered options. *)
Theorem overrides_only_registered (parser : gmap string option_action)
    (check : bool) (json_text : text) ns (wd : string)
    (members : list (string * json)) (v : json) :
  outcome (parse_args parser) = inr ns ->
  ns !! "working_dir" = Some (JStr wd) ->
  json_loads (Text.remove_comments json_text) = inr (JObj members) ->
  List.NoDup (map fst members) ->
  dict_get "modules_process" members = Some v ->
  outcome (py_in "time_step" v) = inr false ->
  exists parser',
    overide_from_json_file parser check json_text
    = (if check
       then map (fun key =>
                   EvPrint ("WARNING: the following parameters of the json file do not exist in igm:  "
                            +:+ key))
                (List.filter (fun key => negb (bool_decide (is_Some (parser !! key))))
                             (map fst members))
       else [],
       inr parser')
    /\ dom parser' = dom parser
    /\ forall key,
         parser' !! key
         = match dict_get key members, parser !! key with
           | Some x, Some a => Some (mkAction x (act_type a) (act_required a))
           | _, o => o
           end.
Proof.
  intros Hns Hwd Hload Hnd Hget Hin.
  rewrite (overide_ready _ _ _ _ _ Hns Hwd), Hload.
  rewrite (apply_dic_params_eq _ _ _ _ _ Hget), Hin.
  exists (set_defaults parser
            (List.filter (fun kv => bool_decide (fst kv ∈ dom parser)) members)).
  assert (Hlook : forall key,
    set_defaults parser
      (List.filter (fun kv => bool_decide (fst kv ∈ dom parser)) members) !! key
    = match dict_get key members, parser !! key with
      | Some x, Some a => Some (mkAction x (act_type a) (act_required a))
      | _, o => o
      end).
  { intros key.
    pose proof (set_defaults_filter_lookup
                  (fun k => bool_decide (k ∈ dom parser)) members parser key Hnd)
      as Hl.
    cbv beta in Hl. rewrite Hl. destruct (dict_get key members) as [x|]; [|done].
    destruct (parser !! key) as [a|] eqn:Ha.
    - rewrite bool_decide_eq_true_2; [done|]. apply elem_of_dom. by eauto.
    - rewrite bool_decide_eq_false_2; [done|].
      intros [? ?]%elem_of_dom. simplify_eq. }
  split_and!.
  - destruct check; [rewrite warn_unknown_eq|]; cbn; [|done].
    rewrite app_nil_r. f_equal. f_equal. apply List.filter_ext. intros key.
    f_equal. apply bool_decide_ext. apply elem_of_dom.
  - apply set_eq. intros key. rewrite !elem_of_dom, Hlook.
    destruct (dict_get key members); [|done].
    destruct (parser !! key); [|done]. split; by eauto.
  - exact Hlook.
Qed.

(** ** Further properties of [remove_comments] *)

#[local] Set Default Proof Using "Type".

(** Automation that looks at every hypothesis is run without the section
    variables the goal does not mention. *)
Ltac forget_environment :=
  try clear set_order_perm; try clear json_loads; try clear set_order;
  try clear igm_parent; try clear import_module.

Lemma split_lines_newline_free (s : text) :
  Forall (fun l => ~ In newline l) (split_lines s).
Proof.
  induction s as [|c r IH]; simpl.
  - constructor; [|constructor]. by intros [].
  - destruct (N.eqb_spec c newline) as [->|Hc].
    + constructor; [by intros []|done].
    + destruct (split_lines r) as [|l ls]; constructor.
      * by intros [?|[]].
      * constructor.
      * apply Forall_cons in IH as [Hl _]. by intros [?|?].
      * by apply Forall_cons in IH as [_ ?].
Qed.

Lemma remove_comments_kept (s : text) : remove_comments s = join_lines (kept_lines s).
Proof. done. Qed.

Lemma kept_lines_no_newline (s : text) :
  Forall (fun l => ~ In newline l) (kept_lines s).
Proof.
  apply List.Forall_forall. intros l [Hl _]%List.filter_In.
  by apply (proj1 (List.Forall_forall _ _) (split_lines_newline_free s)).
Qed.

Lemma split_remove_comments (s : text) :
  split_lines (remove_comments s)
  = match kept_lines s with [] => [[]] | _ => kept_lines s end.
Proof.
  rewrite remove_comments_kept. pose proof (kept_lines_no_newline s) as H.
  destruct (kept_lines s) as [|l ls] eqn:E; [done|]. by apply split_join_lines.
Qed.

Lemma filter_all {A} (f : A -> bool) (l : list A) :
  List.filter f l = l <-> Forall (fun x => f x = true) l.
Proof.
  induction l as [|x l IH]; simpl.
  - split; [constructor|done].
  - destruct (f x) eqn:Hx.
    + split.
      * intros [= H]. constructor; [done|by apply IH].
      * intros [_ H]%Forall_cons. f_equal. by apply IH.
    + split.
      * intros H. pose proof (List.filter_length_le f l) as Hle.
        rewrite H in Hle. simpl in Hle. lia.
      * intros [H _]%Forall_cons. (forget_environment; congruence).
Qed.

Lemma filter_twice {A} (f : A -> bool) (l : list A) :
  List.filter f (List.filter f l) = List.filter f l.
Proof.
  apply filter_all, List.Forall_forall. by intros x [_ ?]%List.filter_In.
Qed.

(** X1.  Stripping the comments of a stripped text changes nothing. *)
Theorem remove_comments_idempotent (s : text) :
  remove_comments (remove_comments s) = remove_comments s.
Proof.
  rewrite (remove_comments_kept (remove_comments s)). unfold kept_lines at 1.
  rewrite split_remove_comments.
  destruct (kept_lines s) as [|l ls] eqn:E.
  - by rewrite remove_comments_kept, E.
  - rewrite <- E. unfold kept_lines. rewrite filter_twice. done.
Qed.

(** X2.  A text is returned as it is exactly when none of its lines is a comment. *)
Theorem remove_comments_fixpoint (s : text) :
  remove_comments s = s
  <-> Forall (fun line => is_comment_line line = false) (split_lines s).
Proof.
  assert (Hall : kept_lines s = split_lines s
                 <-> Forall (fun line => is_comment_line line = false) (split_lines s)).
  { unfold kept_lines. rewrite filter_all. apply Forall_iff. intros l.
    by destruct (is_comment_line l). }
  split.
  - intros Hs. apply Hall.
    pose proof (split_remove_comments s) as Hsplit. rewrite Hs in Hsplit.
    destruct (kept_lines s) as [|l ls] eqn:E; [|done].
    unfold kept_lines in E. rewrite Hsplit in E. done.
  - intros H%Hall. rewrite remove_comments_kept, H. apply join_split_lines.
Qed.

Lemma join_lines_cons (l : text) (ls : list text) :
  join_lines (l :: ls)
  = match ls with [] => l | _ => l ++ newline :: join_lines ls end.
Proof. by destruct ls. Qed.

Lemma join_filter_length (f : text -> bool) (ls : list text) :
  length (join_lines (List.filter f ls)) <= length (join_lines ls).
Proof.
  induction ls as [|x r IH]; [done|].
  rewrite (join_lines_cons x r). cbn [List.filter].
  destruct (f x).
  - rewrite join_lines_cons.
    destruct (List.filter f r) as [|y fr] eqn:E.
    + destruct r; rewrite ?length_app; lia.
    + destruct r as [|z r']; [done|].
      rewrite !length_app. cbn [length]. lia.
  - destruct r as [|z r']; [simpl; lia|].
    rewrite length_app. cbn [length]. lia.
Qed.

(** X3.  Comment stripping never makes the text longer. *)
Theorem remove_comments_length (s : text) :
  length (remove_comments s) <= length s.
Proof.
  rewrite <- (join_split_lines s) at 2. apply join_filter_length.
Qed.

(** X4.  No line of the result is a comment. *)
Theorem remove_comments_leaves_no_comment (s : text) :
  Forall (fun line => is_comment_line line = false)
         (split_lines (remove_comments s)).
Proof.
  rewrite split_remove_comments.
  destruct (kept_lines s) as [|l ls] eqn:E.
  - by repeat constructor.
  - rewrite <- E. apply List.Forall_forall.
    intros x [_ Hx]%List.filter_In. by apply negb_true_iff.
Qed.

Lemma split_lines_concat (a b : text) :
  split_lines (a ++ newline :: b) = split_lines a ++ split_lines b.
Proof.
  induction a as [|c a IH]; [done|].
  cbn [app split_lines]. rewrite IH.
  destruct (c =? newline)%N; [done|].
  pose proof (split_lines_nonempty a). by destruct (split_lines a).
Qed.

Lemma join_lines_app (k1 k2 : list text) :
  join_lines (k1 ++ k2)
  = match k1, k2 with
    | [], _ => join_lines k2
    | _, [] => join_lines k1
    | _, _ => join_lines k1 ++ newline :: join_lines k2
    end.
Proof.
  induction k1 as [|l k1 IH]; [done|].
  destruct k2 as [|l2 k2]; [by rewrite app_nil_r|].
  cbn [app]. rewrite (join_lines_cons l (k1 ++ l2 :: k2)), IH.
  destruct k1 as [|l1 k1]; [done|].
  cbn [app]. rewrite (join_lines_cons l (l1 :: k1)). by rewrite <- app_assoc.
Qed.

Lemma kept_lines_concat (a b : text) :
  kept_lines (a ++ newline :: b) = kept_lines a ++ kept_lines b.
Proof. unfold kept_lines. by rewrite split_lines_concat, List.filter_app. Qed.

(** X5.  Two texts put one after the other on separate lines are stripped
    independently; a part that consists of comments only disappears together
    with the line break that joined it. *)
Theorem remove_comments_concat (a b : text) :
  remove_comments (a ++ newline :: b)
  = match kept_lines a, kept_lines b with
    | [], _ => remove_comments b
    | _, [] => remove_comments a
    | _, _ => remove_comments a ++ newline :: remove_comments b
    end.
Proof.
  rewrite !remove_comments_kept, kept_lines_concat. apply join_lines_app.
Qed.

Lemma lstrip_spaces (ws l : text) :
  Forall (fun c => is_space c = true) ws -> lstrip (ws ++ l) = lstrip l.
Proof.
  induction 1 as [|c ws Hc _ IH]; [done|]. cbn [app lstrip]. by rewrite Hc.
Qed.

(** X6.  Indentation is irrelevant: white space put in front of a line does not
    change whether the line is dropped. *)
Theorem is_comment_line_indent (ws line : text) :
  Forall (fun c => is_space c = true) ws ->
  is_comment_line (ws ++ line) = is_comment_line line.
Proof.
  intros Hws. rewrite !is_comment_line_spec. unfold spec_is_comment.
  by rewrite lstrip_spaces.
Qed.

(** ** Further properties of the loader *)

Lemma load_loop_cons_trace (module_folder module_name : string) rest acc :
  trace (load_loop module_folder (module_name :: rest) acc)
  = trace (import_named module_folder module_name)
    ++ match resolve module_folder module_name with
       | Some m =>
           match first_missing m with
           | None => trace (load_loop module_folder rest (acc ++ [m]))
           | Some _ => []
           end
       | None => []
       end.
Proof.
  cbn [load_loop]. rewrite bind_trace, import_named_outcome.
  destruct (resolve module_folder module_name) as [m|]; [|done].
  rewrite bind_trace, validate_module_trace, validate_module_eq.
  by destruct (first_missing m).
Qed.

(** The accumulator only prefixes the result. *)
Lemma load_loop_acc (module_folder : string) names acc :
  outcome (load_loop module_folder names acc)
  = match outcome (load_loop module_folder names []) with
    | inl e => inl e
    | inr l => inr (acc ++ l)
    end
  /\ trace (load_loop module_folder names acc)
     = trace (load_loop module_folder names []).
Proof.
  revert acc. induction names as [|n names IH]; intros acc.
  - split; [|done]. cbn. by rewrite app_nil_r.
  - rewrite !load_loop_cons, !load_loop_cons_trace.
    destruct (resolve module_folder n) as [m|]; [|done].
    destruct (first_missing m); [done|].
    destruct (IH (acc ++ [m])) as [-> ->]. destruct (IH ([] ++ [m])) as [-> ->].
    split; [|done].
    destruct (outcome (load_loop module_folder names [])); [done|].
    by rewrite <- app_assoc.
Qed.

(** X7.  Loading a list of names is loading its first part and then the rest:
    the results are concatenated, a failure in the first part is the failure
    of the whole, and nothing of the rest is then attempted. *)
Theorem load_modules_from_directory_app (a b : list string) (module_folder : string) :
  outcome (load_modules_from_directory (a ++ b) module_folder)
  = match outcome (load_modules_from_directory a module_folder) with
    | inl e => inl e
    | inr la =>
        match outcome (load_modules_from_directory b module_folder) with
        | inl e => inl e
        | inr lb => inr (la ++ lb)
        end
    end
  /\ trace (load_modules_from_directory (a ++ b) module_folder)
     = trace (load_modules_from_directory a module_folder)
       ++ match outcome (load_modules_from_directory a module_folder) with
          | inl _ => []
          | inr _ => trace (load_modules_from_directory b module_folder)
          end.
Proof.
  unfold load_modules_from_directory. induction a as [|n a IH].
  - cbn [app]. split; [|done]. cbn.
    by destruct (outcome (load_loop module_folder b [])).
  - cbn [app]. rewrite !load_loop_cons, !load_loop_cons_trace.
    destruct (resolve module_folder n) as [m|]; [|by rewrite !app_nil_r].
    destruct (first_missing m); [by rewrite !app_nil_r|].
    destruct (load_loop_acc module_folder (a ++ b) ([] ++ [m])) as [-> ->].
    destruct (load_loop_acc module_folder a ([] ++ [m])) as [-> ->].
    destruct IH as [-> ->]. rewrite <- app_assoc.
    destruct (outcome (load_loop module_folder a [])); [done|].
    destruct (outcome (load_loop module_folder b [])); [done|].
    by rewrite <- app_assoc.
Qed.

Lemma import_named_imports (module_folder module_name : string) :
  imports (trace (import_named module_folder module_name))
  = match import_module (framework_path module_folder module_name) with
    | Some _ => [framework_path module_folder module_name]
    | None => [framework_path module_folder module_name; module_name]
    end.
Proof.
  rewrite import_named_eq.
  by destruct (import_module (framework_path module_folder module_name)).
Qed.

(** X8.  The loader imports nothing but the listed names, each under its
    framework path or bare, and at most twice per name. *)
Theorem load_modules_from_directory_imports (names : list string) (module_folder : string) :
  length (imports (trace (load_modules_from_directory names module_folder)))
  <= 2 * length names
  /\ Forall (fun path => exists n, In n names
                         /\ (path = framework_path module_folder n \/ path = n))
            (imports (trace (load_modules_from_directory names module_folder))).
Proof.
  unfold load_modules_from_directory. generalize (@nil Module) as acc.
  induction names as [|n names IH]; intros acc.
  - split; [simpl; lia|constructor].
  - rewrite load_loop_cons_trace, imports_app, import_named_imports, length_app.
    assert (Hrest :
      length (imports
                match resolve module_folder n with
                | Some m =>
                    match first_missing m with
                    | None => trace (load_loop module_folder names (acc ++ [m]))
                    | Some _ => []
                    end
                | None => []
                end) <= 2 * length names
      /\ Forall (fun path => exists n0, In n0 (n :: names)
                    /\ (path = framework_path module_folder n0 \/ path = n0))
           (imports
                match resolve module_folder n with
                | Some m =>
                    match first_missing m with
                    | None => trace (load_loop module_folder names (acc ++ [m]))
                    | Some _ => []
                    end
                | None => []
                end)).
    { destruct (resolve module_folder n) as [m|]; [|split; [simpl; lia|constructor]].
      destruct (first_missing m); [split; [simpl; lia|constructor]|].
      destruct (IH (acc ++ [m])) as [Hlen Hall]. split; [done|].
      eapply Forall_impl; [exact Hall|]. intros path (n0 & Hin & Hp).
      exists n0. split; [by right|done]. }
    destruct Hrest as [Hlen Hall]. split.
    + destruct (import_module (framework_path module_folder n)); cbn [length]; lia.
    + apply Forall_app. split; [|done].
      destruct (import_module (framework_path module_folder n));
        repeat constructor; exists n; (split; [by left|(forget_environment; tauto)]).
Qed.

(** X9.  Every module of a returned pipeline exposes the four required functions,
    and the pipeline has one module per listed name. *)
Theorem load_modules_pipeline_valid (d : modules_dict) (l : list Module) :
  outcome (load_modules d) = inr l ->
  Forall (fun m => valid m = true) l
  /\ length l = length (modules_preproc d) + length (modules_process d)
                + length (modules_postproc d).
Proof.
  unfold load_modules, load_modules_from_directory. rewrite bind_outcome.
  destruct (outcome (load_loop "preproc" _ [])) as [|l1] eqn:E1; [done|].
  rewrite bind_outcome.
  destruct (outcome (load_loop "process" _ [])) as [|l2] eqn:E2; [done|].
  rewrite bind_outcome.
  destruct (outcome (load_loop "postproc" _ [])) as [|l3] eqn:E3; [done|].
  intros [= <-].
  apply load_loop_inv in E1 as (ms1 & H1 & V1 & ->).
  apply load_loop_inv in E2 as (ms2 & H2 & V2 & ->).
  apply load_loop_inv in E3 as (ms3 & H3 & V3 & ->).
  simpl. split.
  - rewrite !Forall_app. done.
  - apply Forall2_length in H1, H2, H3. rewrite !length_app. simpl. lia.
Qed.

(** ** Further properties of the dependency expansion *)

Lemma search_directories_origin deps directories acc s :
  outcome (search_directories deps directories acc) = inr s ->
  s = acc
  \/ exists m n rest d,
       deps = n :: rest /\ In d directories /\ resolve d n = Some m
       /\ valid m = true /\ s = set_add m acc.
Proof.
  induction directories as [|d dirs IH].
  - intros [= <-]. by left.
  - rewrite search_directories_cons.
    destruct (outcome (load_modules_from_directory deps d)) as [e|[|m l]] eqn:E.
    + destruct e; try done. intros [->|(m & n & rest & d' & ? & ? & ?)]%IH; [by left|].
      right. exists m, n, rest, d'. split_and!; try (forget_environment; tauto). by right.
    + done.
    + intros [= <-]. right.
      apply load_loop_inv in E as (ms & Hres & Hval & Heq). simpl in Heq. subst ms.
      inversion Hres as [|n ? rest ? Hn _]; subst.
      apply Forall_cons in Hval as [Hm _].
      exists m, n, rest, d. split_and!; try done. by left.
Qed.

Lemma set_add_length (m : Module) (s : list Module) :
  length (set_add m s) <= S (length s).
Proof. unfold set_add. case_decide; [lia|]. rewrite length_app. simpl. lia. Qed.

Lemma set_add_inv (m : Module) (s : list Module) x :
  In x (set_add m s) -> x = m \/ In x s.
Proof.
  unfold set_add. case_decide; [(forget_environment; tauto)|]. intros [?|[->|[]]]%in_app_or; (forget_environment; tauto).
Qed.

Lemma has_dependencies_eq (module : Module) :
  has_dependencies module
  = match mod_dependencies module with Some _ => true | None => false end.
Proof.
  unfold has_dependencies, hasattr. simpl String.eqb.
  destruct (mod_dependencies module).
  - by rewrite bool_decide_eq_true_2 by eauto.
  - by rewrite bool_decide_eq_false_2 by (by intros [? [=]]).
Qed.

(** What the loop over the modules adds to the set. *)
Lemma dependencies_loop_origin modules acc s :
  outcome (dependencies_loop modules acc) = inr s ->
  (forall x, In x s -> In x acc \/ (valid x = true /\ dependency_of modules x))
  /\ length s <= length acc + length (List.filter has_dependencies modules).
Proof.
  revert acc. induction modules as [|module rest IH]; intros acc.
  - intros [= <-]. split; [(forget_environment; tauto)|simpl; lia].
  - rewrite dependencies_loop_cons. cbn [List.filter].
    rewrite has_dependencies_eq.
    destruct (mod_dependencies module) as [deps|] eqn:Hdeps.
    + destruct (outcome (search_directories _ _ _)) as [|s'] eqn:E; [done|].
      intros [Hin Hlen]%IH.
      apply search_directories_origin in E as [->|(m & n & r & d & -> & Hd & Hn & Hm & ->)].
      * split; [|simpl; lia]. intros x [?|[? (mo & n & r & d & ? & ?)]]%Hin; [by left|].
        right. split; [done|]. exists mo, n, r, d. split; [by right|done].
      * pose proof (set_add_length m acc). split; [|simpl; lia].
        intros x [[->|?]%set_add_inv|[? (mo & n' & r' & d' & ? & ?)]]%Hin.
        -- right. split; [done|]. exists module, n, r, d. split; [by left|done].
        -- by left.
        -- right. split; [done|]. exists mo, n', r', d'. split; [by right|done].
    + intros [Hin Hlen]%IH. split; [|done].
      intros x [?|[? (mo & n & r & d & ? & ?)]]%Hin; [by left|].
      right. split; [done|]. exists mo, n, r, d. split; [by right|done].
Qed.

(** X10.  Every module that expansion appends exposes the four required functions
    and is what the first name of the dependency list of some input module
    resolves to; the dependencies of the appended modules are not followed. *)
Theorem add_dependencies_appends_valid (imported_modules l : list Module) :
  outcome (add_dependencies imported_modules) = inr l ->
  Forall (fun x => valid x = true /\ dependency_of imported_modules x)
         (skipn (length imported_modules) l).
Proof using Type set_order_perm.
  rewrite add_dependencies_outcome.
  destruct (outcome (dependencies_loop imported_modules [])) as [|s] eqn:E; [done|].
  intros [= <-]. rewrite drop_app_length. apply List.Forall_forall. intros x Hx.
  apply (Permutation_in _ (set_order_perm s)) in Hx.
  by destruct (proj1 (dependencies_loop_origin _ _ _ E) x Hx) as [[]|?].
Qed.

(** X11.  Expansion appends at most one module for each input module that
    declares dependencies. *)
Theorem add_dependencies_length (imported_modules l : list Module) :
  outcome (add_dependencies imported_modules) = inr l ->
  length l
  <= length imported_modules + length (List.filter has_dependencies imported_modules).
Proof using Type set_order_perm.
  rewrite add_dependencies_outcome.
  destruct (outcome (dependencies_loop imported_modules [])) as [|s] eqn:E; [done|].
  intros [= <-]. rewrite length_app, (Permutation_length (set_order_perm s)).
  pose proof (proj2 (dependencies_loop_origin _ _ _ E)). simpl in *. lia.
Qed.

(** X12.  The appended part never contains a module twice. *)
Theorem add_dependencies_appends_distinct (imported_modules l : list Module) :
  outcome (add_dependencies imported_modules) = inr l ->
  List.NoDup (skipn (length imported_modules) l).
Proof using Type set_order_perm.
  rewrite add_dependencies_outcome.
  destruct (outcome (dependencies_loop imported_modules [])) as [|s] eqn:E; [done|].
  intros [= <-]. rewrite drop_app_length.
  apply (Permutation_NoDup (Permutation_sym (set_order_perm s))).
  apply (dependencies_loop_grows _ _ _ E). constructor.
Qed.

Lemma dependencies_loop_none modules acc :
  Forall (fun m => mod_dependencies m = None) modules ->
  dependencies_loop modules acc = ([], inr acc).
Proof.
  induction 1 as [|m rest Hm _ IH]; [done|].
  cbn [dependencies_loop]. by rewrite has_dependencies_eq, Hm.
Qed.

(** X13.  A pipeline in which no module declares dependencies is returned as it
    is, without any import or log call. *)
Theorem add_dependencies_none (imported_modules : list Module) :
  Forall (fun m => mod_dependencies m = None) imported_modules ->
  add_dependencies imported_modules = ([], inr imported_modules).
Proof using Type set_order_perm.
  intros H. unfold add_dependencies.
  rewrite (bind_value _ _ [] [] (dependencies_loop_none _ _ H)).
  cbn. rewrite (Permutation_nil (Permutation_sym (set_order_perm []))).
  by rewrite app_nil_r.
Qed.

Lemma dependencies_loop_app a b acc :
  outcome (dependencies_loop (a ++ b) acc)
  = match outcome (dependencies_loop a acc) with
    | inl e => inl e
    | inr s => outcome (dependencies_loop b s)
    end.
Proof.
  revert acc. induction a as [|m a IH]; intros acc; [done|].
  cbn [app]. rewrite !dependencies_loop_cons.
  destruct (mod_dependencies m); [|apply IH].
  destruct (outcome (search_directories _ _ _)); [done|apply IH].
Qed.

(** X14.  A module that declares an empty dependency list is not treated as a
    module without dependencies: once the expansion reaches it, it raises
    [IndexError]. *)
Theorem add_dependencies_empty_list (before after : list Module)
    (module : Module) (l : list Module) :
  outcome (add_dependencies before) = inr l ->
  mod_dependencies module = Some [] ->
  outcome (add_dependencies (before ++ module :: after)) = inl IndexError.
Proof.
  rewrite !add_dependencies_outcome, dependencies_loop_app.
  destruct (outcome (dependencies_loop before [])) as [|s]; [done|].
  intros _ Hdeps. by rewrite dependencies_loop_cons, Hdeps.
Qed.

Lemma resolves_all_true (module_folder : string) names :
  resolves_all module_folder names = true ->
  exists ms, Forall2 (fun n m => resolve module_folder n = Some m) names ms.
Proof.
  induction names as [|n names IH]; [by exists []|].
  cbn [resolves_all forallb]. intros [Hn Hrest]%andb_true_iff.
  apply bool_decide_eq_true_1 in Hn as [m Hm].
  destruct (IH Hrest) as [ms Hms]. exists (m :: ms). by constructor.
Qed.

Lemma resolves_all_false (module_folder : string) names :
  resolves_all module_folder names = false ->
  exists pre ms n post,
    names = pre ++ n :: post
    /\ Forall2 (fun n m => resolve module_folder n = Some m) pre ms
    /\ resolve module_folder n = None.
Proof.
  induction names as [|n names IH]; [done|].
  cbn [resolves_all forallb].
  destruct (resolve module_folder n) as [m|] eqn:Hn.
  - rewrite bool_decide_eq_true_2 by eauto. cbn [andb].
    intros (pre & ms & n' & post & -> & Hpre & Hn')%IH.
    exists (n :: pre), (m :: ms), n', post. split_and!; [done| |done].
    by constructor.
  - intros _. exists [], [], n, names. split_and!; [done|constructor|done].
Qed.

Lemma resolved_valid (module_folder : string) names ms :
  Forall2 (fun n m => resolve module_folder n = Some m) names ms ->
  (forall n m, In n names -> resolve module_folder n = Some m -> valid m = true) ->
  Forall (fun m => valid m = true) ms.
Proof.
  induction 1 as [|n m names ms Hn _ IH]; intros Hvalid; constructor.
  - apply (Hvalid n); [by left|done].
  - apply IH. intros n' m' Hin. apply Hvalid. by right.
Qed.

(** X15.  A dependency list is resolved as a whole inside one category: when the
    modules it can reach are valid, the search takes the first category in
    which every name of the list resolves and adds what the first name
    resolves to there; when no single category resolves them all, nothing is
    added, even if each name is found somewhere. *)
Theorem search_directories_whole_list (deps : list string) (acc : list Module) :
  (forall d n m, In d directories_to_search -> In n deps ->
                 resolve d n = Some m -> valid m = true) ->
  outcome (search_directories deps directories_to_search acc)
  = match List.find (fun d => resolves_all d deps) directories_to_search with
    | Some d =>
        match deps with
        | [] => inl IndexError
        | n :: _ =>
            match resolve d n with
            | Some m => inr (set_add m acc)
            | None => inr acc
            end
        end
    | None => inr acc
    end.
Proof.
  generalize directories_to_search as dirs.
  induction dirs as [|d dirs IH]; intros Hvalid; [done|].
  rewrite search_directories_cons. cbn [List.find].
  unfold load_modules_from_directory.
  destruct (resolves_all d deps) eqn:Hall.
  - destruct (resolves_all_true _ _ Hall) as [ms Hms].
    rewrite (load_loop_ok d deps ms []).
    + destruct Hms as [|n m names ms Hn _]; [done|]. by rewrite Hn.
    + done.
    + apply (resolved_valid d deps); [done|].
      intros n m Hn. apply Hvalid; [by left|done].
  - destruct (resolves_all_false _ _ Hall) as (pre & ms & n & post & -> & Hpre & Hn).
    rewrite (load_loop_not_found d pre ms n post []); try done.
    + apply IH. intros d' n' m Hd'. apply Hvalid. by right.
    + apply (resolved_valid d pre); [done|].
      intros n' m Hn'. apply Hvalid; [by left|]. apply in_or_app. by left.
Qed.

(** ** Further properties of the parameter override *)

(** X16.  [check_if_params_exist] changes what is printed and nothing else: the
    parameters that result, or the exception raised, are the same. *)
Theorem overide_check_only_prints (parser : gmap string option_action)
    (json_text : text) :
  outcome (overide_from_json_file parser true json_text)
  = outcome (overide_from_json_file parser false json_text).
Proof.
  rewrite !overide_outcome.
  destruct (outcome (parse_args parser)) as [|ns]; [done|].
  destruct (ns !! "working_dir") as [[| | |wd| |]|]; try done.
  destruct (json_loads (Text.remove_comments json_text)); [done|].
  by rewrite !apply_dic_params_outcome.
Qed.

(** X17.  The exceptions of the override step.  A parser that [parse_args]
    rejects ends in the exit with status 2; a namespace without
    [working_dir] in the attribute error of the namespace, one whose
    [working_dir] is not a string in [TypeError]; after that, a file that
    does not parse ends in [UnboundLocalError], a parsed value that is not a
    dictionary in [TypeError], a dictionary without [modules_process] in
    [KeyError], and a dictionary with it in [TypeError] or in the deprecation
    exit. *)
Theorem overide_exceptions (parser : gmap string option_action) (check : bool)
    (json_text : text) (e : exn) :
  outcome (overide_from_json_file parser check json_text) = inl e ->
  match outcome (parse_args parser) with
  | inl _ => e = SystemExitCode 2
  | inr ns =>
      match ns !! "working_dir" with
      | None => e = NamespaceAttributeError "working_dir"
      | Some (JStr _) =>
          match json_loads (Text.remove_comments json_text) with
          | inl _ => e = UnboundLocalError
          | inr (JObj members) =>
              match dict_get "modules_process" members with
              | None => e = KeyError "modules_process"
              | Some v =>
                  e = TypeError
                  \/ e = SystemExit "WARNING: the parameter time_step is deprecated, UPDATE you params.json file"
              end
          | inr _ => e = TypeError
          end
      | Some _ => e = TypeError
      end
  end.
Proof.
  rewrite overide_outcome.
  destruct (outcome (parse_args parser)) as [e'|ns] eqn:Hns.
  { apply parse_args_error in Hns as [-> _]. by intros [= <-]. }
  destruct (ns !! "working_dir") as [[| | |wd| |]|]; try by intros [= <-].
  destruct (json_loads (Text.remove_comments json_text)) as [|dic];
    [by intros [= <-]|].
  rewrite apply_dic_params_outcome.
  destruct dic as [| | | | |members]; cbn; try by intros [= <-].
  destruct (dict_get "modules_process" members) as [v|]; cbn; [|by intros [= <-]].
  destruct v as [| | |s|items|ms]; cbn; try (intros [= <-]; by left).
  - destruct (is_substring "time_step" s); [|done]. intros [= <-]. by right.
  - destruct (existsb _ items); [|done]. intros [= <-]. by right.
  - destruct (existsb _ ms); [|done]. intros [= <-]. by right.
Qed.

Lemma set_defaults_snoc (p : gmap string option_action) (l : list (string * json)) kv :
  set_defaults p (l ++ [kv]) = set_default (set_defaults p l) kv.
Proof. unfold set_defaults. by rewrite foldl_app. Qed.

(** The option of a key after [set_defaults]: the last entry given for it
    is its default. *)
Lemma set_defaults_lookup (p : gmap string option_action)
    (l : list (string * json)) (key : string) :
  set_defaults p l !! key
  = match dict_get key (rev l) with
    | Some x => Some (with_default x (p !! key))
    | None => p !! key
    end.
Proof.
  induction l as [|[k v] l IH] using rev_ind; [done|].
  rewrite set_defaults_snoc, rev_app_distr, set_default_lookup.
  cbn [rev app dict_get fst snd].
  destruct (String.eqb_spec key k) as [->|Hne]; [|apply IH].
  rewrite IH. f_equal.
  destruct (dict_get k (rev l)); [|done]. by destruct (p !! k).
Qed.

Lemma set_defaults_twice (p : gmap string option_action) (l : list (string * json)) :
  set_defaults (set_defaults p l) l = set_defaults p l.
Proof.
  apply map_eq. intros key. rewrite (set_defaults_lookup (set_defaults p l)).
  rewrite set_defaults_lookup.
  destruct (dict_get key (rev l)); [|done]. by destruct (p !! key).
Qed.

Lemma dict_get_Some_In (key : string) (l : list (string * json)) x :
  dict_get key l = Some x -> In (key, x) l.
Proof.
  induction l as [|[k v] l IH]; [done|]. simpl.
  destruct (String.eqb_spec key k) as [->|_].
  - intros [= ->]. by left.
  - intros ?. right. by apply IH.
Qed.

Lemma set_defaults_registered_dom (p : gmap string option_action)
    (members : list (string * json)) :
  dom (set_defaults p (registered_entries p members)) = dom p.
Proof.
  apply set_eq. intros key. rewrite !elem_of_dom, set_defaults_lookup.
  destruct (dict_get key (rev (registered_entries p members))) as [x|] eqn:E; [|done].
  apply dict_get_Some_In, in_rev in E.
  apply List.filter_In in E as [_ Hk%bool_decide_eq_true_1].
  apply elem_of_dom in Hk. split; [done|by eauto].
Qed.

Lemma registered_entries_dom (p1 p2 : gmap string option_action)
    (members : list (string * json)) :
  dom p1 = dom p2 -> registered_entries p1 members = registered_entries p2 members.
Proof. unfold registered_entries. by intros ->. Qed.

Lemma overide_return_inv (parser parser' : gmap string option_action) (check : bool)
    (json_text : text) :
  outcome (overide_from_json_file parser check json_text) = inr parser' ->
  exists ns wd members v,
    outcome (parse_args parser) = inr ns
    /\ ns !! "working_dir" = Some (JStr wd)
    /\ json_loads (Text.remove_comments json_text) = inr (JObj members)
    /\ dict_get "modules_process" members = Some v
    /\ outcome (py_in "time_step" v) = inr false
    /\ parser' = set_defaults parser (registered_entries parser members).
Proof.
  rewrite overide_outcome.
  destruct (outcome (parse_args parser)) as [|ns] eqn:Hns; [done|].
  destruct (ns !! "working_dir") as [[| | |wd| |]|] eqn:Hwd; try done.
  destruct (json_loads (Text.remove_comments json_text)) as [|dic] eqn:Hload; [done|].
  rewrite apply_dic_params_outcome.
  destruct dic as [| | | | |members]; try done. cbn [subscript].
  destruct (dict_get "modules_process" members) as [v|] eqn:Hget; [|done].
  cbn [outcome ret snd].
  destruct (outcome (py_in "time_step" v)) as [|[]] eqn:E; try done.
  intros [= <-]. by exists ns, wd, members, v.
Qed.

(** X18.  Applying the same file a second time changes nothing, provided
    [parse_args] still accepts the parser that the first application left
    and its [working_dir] is a string: the parameters stay as they are, and
    the same warnings are printed again. *)
Theorem overide_idempotent (parser parser' : gmap string option_action)
    (check check' : bool) (json_text : text) ns' (wd' : string) :
  outcome (overide_from_json_file parser check json_text) = inr parser' ->
  outcome (parse_args parser') = inr ns' ->
  ns' !! "working_dir" = Some (JStr wd') ->
  outcome (overide_from_json_file parser' check' json_text) = inr parser'
  /\ trace (overide_from_json_file parser' check json_text)
     = trace (overide_from_json_file parser check json_text).
Proof.
  intros (ns & wd & members & v & Hns & Hwd & Hload & Hget & Hin & ->)%overide_return_inv
    Hns' Hwd'.
  pose proof (set_defaults_registered_dom parser members) as Hdom.
  rewrite !(overide_ready _ _ _ _ _ Hns' Hwd'), (overide_ready _ _ _ _ _ Hns Hwd).
  rewrite Hload, !(apply_dic_params_eq _ _ _ _ _ Hget), Hin, Hdom.
  fold (registered_entries parser members). split.
  - rewrite bind_outcome. destruct check'; rewrite ?warn_unknown_eq;
      cbn [outcome ret snd]; by rewrite set_defaults_twice.
  - rewrite !bind_trace. by destruct check; rewrite ?warn_unknown_eq.
Qed.

(** ** Properties of [get_modules_list] *)

Lemma get_modules_list_parsed (json_error_pos : text -> N) (json_text : text)
    (members : list (string * json)) :
  json_loads (Text.remove_comments json_text) = inr (JObj members) ->
  get_modules_list json_error_pos json_text
  = match dict_get "modules_preproc" members with
    | None => inl (Raised (KeyError "modules_preproc"))
    | Some preproc =>
        match dict_get "modules_process" members with
        | None => inl (Raised (KeyError "modules_process"))
        | Some process =>
            match dict_get "modules_postproc" members with
            | None => inl (Raised (KeyError "modules_postproc"))
            | Some postproc =>
                inr [("modules_preproc", preproc); ("modules_process", process);
                     ("modules_postproc", postproc)]
            end
        end
    end.
Proof.
  intros Hload. unfold get_modules_list. rewrite Hload. cbn [subscript].
  destruct (dict_get "modules_preproc" members); [|done].
  destruct (dict_get "modules_process" members); [|done].
  by destruct (dict_get "modules_postproc" members).
Qed.

(** X19.  On a file that parses to a dictionary, [get_modules_list] returns
    exactly when the three module lists are present; the result then has
    those three keys, in the fixed order, with the values of the file, and
    every other key of the file is ignored.  Otherwise the [KeyError] names a
    key that the file lacks. *)
Theorem get_modules_list_keys (json_error_pos : text -> N) (json_text : text)
    (members : list (string * json)) :
  json_loads (Text.remove_comments json_text) = inr (JObj members) ->
  ((exists d, get_modules_list json_error_pos json_text = inr d)
   <-> Forall (fun k => is_Some (dict_get k members)) module_list_keys)
  /\ (forall d, get_modules_list json_error_pos json_text = inr d ->
        map fst d = module_list_keys
        /\ forall k, In k module_list_keys -> dict_get k d = dict_get k members)
  /\ (forall e, get_modules_list json_error_pos json_text = inl e ->
        exists k, e = Raised (KeyError k) /\ In k module_list_keys
                  /\ dict_get k members = None).
Proof.
  intros Hload. rewrite (get_modules_list_parsed _ _ _ Hload). unfold module_list_keys.
  destruct (dict_get "modules_preproc" members) as [a|] eqn:Ha;
    [destruct (dict_get "modules_process" members) as [b|] eqn:Hb;
     [destruct (dict_get "modules_postproc" members) as [c|] eqn:Hc|]|].
  - split_and!.
    + split; [|by eauto]. intros _. repeat constructor; eauto.
    + intros d [= <-]. split; [done|].
      intros k [<-|[<-|[<-|[]]]]; by rewrite ?Ha, ?Hb, ?Hc.
    + done.
  - split_and!.
    + split; [by intros [? [=]]|]. intros H.
      apply Forall_cons in H as [_ H]. apply Forall_cons in H as [_ H].
      apply Forall_cons in H as [[? ?] _]. (forget_environment; congruence).
    + done.
    + intros e [= <-]. exists "modules_postproc". split_and!; [done|simpl; (forget_environment; tauto)|done].
  - split_and!.
    + split; [by intros [? [=]]|]. intros H.
      apply Forall_cons in H as [_ H]. apply Forall_cons in H as [[? ?] _]. (forget_environment; congruence).
    + done.
    + intros e [= <-]. exists "modules_process". split_and!; [done|simpl; (forget_environment; tauto)|done].
  - split_and!.
    + split; [by intros [? [=]]|]. intros H.
      apply Forall_cons in H as [[? ?] _]. (forget_environment; congruence).
    + done.
    + intros e [= <-]. exists "modules_preproc". split_and!; [done|simpl; (forget_environment; tauto)|done].
Qed.

(** X20.  The two readers of the parameter file agree: a registered module-list
    option gets, from [overide_from_json_file], the very list that
    [get_modules_list] returns for it. *)
Theorem module_lists_agree (json_error_pos : text -> N)
    (parser parser' : gmap string option_action) (check : bool)
    (json_text : text) (members d : list (string * json)) (key : string) :
  json_loads (Text.remove_comments json_text) = inr (JObj members) ->
  List.NoDup (map fst members) ->
  get_modules_list json_error_pos json_text = inr d ->
  outcome (overide_from_json_file parser check json_text) = inr parser' ->
  In key module_list_keys ->
  key ∈ dom parser ->
  is_Some (dict_get key d)
  /\ act_default <$> parser' !! key = dict_get key d.
Proof.
  intros Hload Hnd Hget Hov Hkey Hreg.
  apply overide_return_inv in Hov as (ns & wd & ms & v & _ & _ & Hload' & _ & _ & ->).
  rewrite Hload in Hload'. injection Hload' as <-.
  rewrite (get_modules_list_parsed _ _ _ Hload) in Hget.
  destruct (dict_get "modules_preproc" members) as [a|] eqn:Ha; [|done].
  destruct (dict_get "modules_process" members) as [b|] eqn:Hb; [|done].
  destruct (dict_get "modules_postproc" members) as [c|] eqn:Hc; [|done].
  injection Hget as <-.
  assert (Hx : exists x, dict_get key members = Some x
                         /\ dict_get key
                              [("modules_preproc", a); ("modules_process", b);
                               ("modules_postproc", c)] = Some x).
  { destruct Hkey as [<-|[<-|[<-|[]]]]; eauto. }
  destruct Hx as (x & Hx & ->). split; [by eauto|].
  pose proof (set_defaults_filter_lookup
                (fun k => bool_decide (k ∈ dom parser)) members parser key Hnd) as Hlook.
  cbv beta in Hlook. unfold registered_entries. rewrite Hlook, Hx.
  rewrite bool_decide_eq_true_2 by done.
  apply elem_of_dom in Hreg as [o Ho]. by rewrite Ho.
Qed.

(** ** [params_core] under the override *)

(** X21.  Overriding the core parser from a file leaves exactly the nine core
    options, whatever other keys the file has, and sets each of the three
    module lists to the list that [get_modules_list] reads from the file. *)
Theorem core_override_follows_file (py_int str2bool : string -> option json)
    (json_error_pos : text -> N)
    (parser' : gmap string option_action) (check : bool)
    (json_text : text) (members d : list (string * json)) :
  json_loads (Text.remove_comments json_text) = inr (JObj members) ->
  List.NoDup (map fst members) ->
  get_modules_list json_error_pos json_text = inr d ->
  outcome (overide_from_json_file (params_core py_int str2bool) check json_text)
  = inr parser' ->
  dom parser' = dom (params_core py_int str2bool)
  /\ forall key, In key module_list_keys ->
       act_default <$> parser' !! key = dict_get key d.
Proof.
  intros Hload Hnd Hget Hov.
  apply overide_return_inv in Hov as (ns & wd & ms & v & _ & _ & Hload' & _ & _ & ->).
  rewrite Hload in Hload'. injection Hload' as <-.
  split; [apply set_defaults_registered_dom|].
  rewrite (get_modules_list_parsed _ _ _ Hload) in Hget.
  destruct (dict_get "modules_preproc" members) as [a|] eqn:Ha; [|done].
  destruct (dict_get "modules_process" members) as [b|] eqn:Hb; [|done].
  destruct (dict_get "modules_postproc" members) as [c|] eqn:Hc; [|done].
  injection Hget as <-. intros key Hkey.
  pose proof (set_defaults_filter_lookup
                (fun k => bool_decide (k ∈ dom (params_core py_int str2bool)))
                members (params_core py_int str2bool) key Hnd) as Hlook.
  cbv beta in Hlook. unfold registered_entries. rewrite Hlook.
  destruct Hkey as [<-|[<-|[<-|[]]]]; rewrite ?Ha, ?Hb, ?Hc;
    (rewrite bool_decide_eq_true_2; [done|]);
    apply elem_of_dom; eexists; reflexivity.
Qed.

(** ** [add_logger] *)

Lemma append_nonempty (a b : string) : b <> "" -> a +:+ b <> "".
Proof. by destruct a, b. Qed.

Lemma path_join_suffix (a b : string) : exists pre, path_join a b = pre +:+ b.
Proof.
  unfold path_join. destruct (String.prefix "/" b); [by exists ""|].
  destruct (String.eqb a "" || ends_with "/" a); [by exists a|].
  exists (a +:+ "/"). by rewrite append_assoc.
Qed.

(** X22.  [add_logger] raises, having done nothing, when [logging] has no
    attribute named by the level; it stops after the call of [basicConfig]
    when that call raises, before the logger is fetched and before anything
    is added to [clean.sh].  When [basicConfig] returns: with an empty
    [logging_file] the log goes to the console and nothing is added to
    [clean.sh]; otherwise it goes to a path that ends with [logging_file],
    and the cleanup line for that same path is added. *)
Theorem add_logger_cleanup (logging_attribute : string -> option string)
    (basic_config : string -> string -> option exn)
    (working_dir logging_file logging_level : string) :
  (logging_attribute logging_level = None ->
   add_logger logging_attribute basic_config working_dir logging_file logging_level
   = ([], Some (NoLoggingAttribute logging_level)))
  /\ (forall level,
        logging_attribute logging_level = Some level ->
        (logging_file = "" ->
         add_logger logging_attribute basic_config working_dir logging_file logging_level
         = match basic_config "" level with
           | Some e => ([SysBasicConfig "" level], Some (BasicConfigRaised e))
           | None => ([SysBasicConfig "" level; SysGetLogger "my_logger"], None)
           end)
        /\ (logging_file <> "" ->
            exists pre,
              add_logger logging_attribute basic_config working_dir logging_file
                logging_level
              = match basic_config (pre +:+ logging_file) level with
                | Some e =>
                    ([SysBasicConfig (pre +:+ logging_file) level],
                     Some (BasicConfigRaised e))
                | None =>
                    ([SysBasicConfig (pre +:+ logging_file) level;
                      SysGetLogger "my_logger";
                      SysCommand ("echo rm " +:+ (pre +:+ logging_file)
                                  +:+ " >> clean.sh")],
                     None)
                end)).
Proof.
  unfold add_logger. split; [by intros ->|].
  intros level ->. split.
  - intros ->. cbn. by destruct (basic_config "" level).
  - intros Hne. destruct (String.eqb_spec logging_file ""); [done|].
    destruct (path_join_suffix working_dir logging_file) as [pre ->].
    exists pre. destruct (basic_config (pre +:+ logging_file) level); [done|].
    destruct (String.eqb_spec (pre +:+ logging_file) "") as [He|_]; [|done].
    by apply append_nonempty in He.
Qed.

(** ** The documentation script *)

Lemma split_on_nonempty (c : ascii) (s : string) : split_on c s <> [].
Proof.
  destruct s as [|a s]; [done|]. simpl.
  destruct (Ascii.eqb a c); [done|]. by destruct (split_on c s).
Qed.

Lemma split_on_concat (c : ascii) (a b : string) :
  split_on c (a +:+ String c b) = split_on c a ++ split_on c b.
Proof.
  induction a as [|x a IH]; simpl.
  - by rewrite Ascii.eqb_refl.
  - rewrite IH. destruct (Ascii.eqb x c); [done|].
    pose proof (split_on_nonempty c a). by destruct (split_on c a).
Qed.

Lemma split_on_absent (c : ascii) (s : string) :
  has_char c s = false -> split_on c s = [s].
Proof.
  induction s as [|a s IH]; [done|]. simpl.
  intros [Ha Hs]%orb_false_iff. by rewrite Ha, IH.
Qed.

Lemma last_app_nonempty {A} (l1 l2 : list A) (d : A) :
  l2 <> [] -> List.last (l1 ++ l2) d = List.last l2 d.
Proof.
  intros H. induction l1 as [|x l1 IH]; [done|].
  cbn [app]. rewrite <- IH. destruct (l1 ++ l2) eqn:E; [|done].
  by apply app_eq_nil in E as [_ ?].
Qed.

Lemma has_char_append (c : ascii) (a b : string) :
  has_char c (a +:+ b) = has_char c a || has_char c b.
Proof. induction a as [|x a IH]; [done|]. simpl. by rewrite IH, orb_assoc. Qed.

(** X23.  The name under which a module file is documented is its file name
    without directory and extension. *)
Theorem stem_of_module_file (dir name ext : string) :
  has_char "/" name = false -> has_char "." name = false ->
  has_char "/" ext = false ->
  stem (dir +:+ "/" +:+ name +:+ "." +:+ ext) = name.
Proof.
  intros Hname Hdot Hext. unfold stem.
  change (dir +:+ "/" +:+ name +:+ "." +:+ ext)
    with (dir +:+ String "/" (name +:+ String "." ext)).
  rewrite split_on_concat, last_app_nonempty by apply split_on_nonempty.
  rewrite (split_on_absent "/" (name +:+ String "." ext)).
  - cbn [List.last]. rewrite split_on_concat.
    by rewrite (split_on_absent "." name Hdot).
  - rewrite has_char_append, Hname. simpl. by rewrite Hext.
Qed.

Lemma list_remove_is_Some (x : string) (L : list string) :
  is_Some (list_remove x L) <-> In x L.
Proof.
  induction L as [|y L IH]; simpl.
  - split; [by intros [? [=]]|done].
  - destruct (String.eqb_spec y x) as [->|Hne].
    + split; [by left|by eauto].
    + destruct (list_remove x L) as [L'|].
      * split; [right; apply IH; by eauto|by eauto].
      * split; [by intros [? [=]]|]. intros [?|H]; [done|].
        by apply IH in H as [? [=]].
Qed.

Lemma list_remove_length (x : string) (L L' : list string) :
  list_remove x L = Some L' -> length L = S (length L').
Proof.
  revert L'. induction L as [|y L IH]; intros L'; [done|]. simpl.
  destruct (String.eqb y x); [by intros [= ->]|].
  destruct (list_remove x L) as [L0|]; [|done].
  intros [= <-]. simpl. by rewrite (IH L0).
Qed.

Lemma document_events (m : string) (L : list string) :
  length (flat_map (document m) L) = 4 * length L
  /\ ~ In (SysCommand "rm igm-run.py") (flat_map (document m) L).
Proof.
  induction L as [|l L [IHlen IHin]]; [split; [done|by intros []]|].
  cbn [flat_map]. rewrite length_app. split; [simpl; lia|].
  intros [Hin|Hin]%in_app_or; [|done].
  destruct Hin as [H|[H|[H|[H|[]]]]]; discriminate H.
Qed.

Lemma document_folders_spec (glob : string -> list string) (folders : list string) :
  (snd (document_folders glob folders) = true
   <-> Forall (fun m => In "__init__" (folder_names glob m)) folders)
  /\ ~ In (SysCommand "rm igm-run.py") (fst (document_folders glob folders))
  /\ (snd (document_folders glob folders) = true ->
      length (fst (document_folders glob folders)) + 4 * length folders
      = 4 * sum_list_with (fun m => length (folder_names glob m)) folders).
Proof.
  induction folders as [|m rest (IHiff & IHin & IHlen)].
  - split_and!; [by split|by intros []|done].
  - cbn [document_folders sum_list_with].
    pose proof (list_remove_is_Some "__init__" (folder_names glob m)) as Hrem.
    destruct (list_remove "__init__" (folder_names glob m)) as [L|] eqn:E.
    + destruct (document_folders glob rest) as [events finished]. cbn [fst snd] in *.
      destruct (document_events m L) as [Hlen Hnin]. split_and!.
      * rewrite IHiff. split.
        -- intros H. constructor; [apply Hrem; by eauto|done].
        -- by intros [_ ?]%Forall_cons.
      * by intros [?|?]%in_app_or.
      * intros Hf. specialize (IHlen Hf). apply list_remove_length in E.
        rewrite length_app. cbn [length]. lia.
    + cbn [fst snd]. split_and!.
      * split; [done|]. intros [H _]%Forall_cons.
        by apply Hrem in H as [? [=]].
      * by intros [].
      * done.
Qed.

(** X24.  The script gets to its end exactly when each of the three folders has
    an [__init__.py]; it then makes four steps for every other file and
    removes its scratch file last.  When a folder lacks [__init__.py] it stops
    with [ValueError] and never removes the scratch file. *)
Theorem generate_all_params_doc_finishes (glob : string -> list string) :
  (snd (generate_all_params_doc glob) = true
   <-> Forall (fun m => In "__init__" (folder_names glob m)) doc_folders)
  /\ (snd (generate_all_params_doc glob) = true ->
      exists events,
        fst (generate_all_params_doc glob) = events ++ [SysCommand "rm igm-run.py"]
        /\ length events + 12
           = 4 * (length (folder_names glob "preproc")
                  + length (folder_names glob "physics")
                  + length (folder_names glob "postproc")))
  /\ (snd (generate_all_params_doc glob) = false ->
      ~ In (SysCommand "rm igm-run.py") (fst (generate_all_params_doc glob))).
Proof.
  unfold generate_all_params_doc.
  destruct (document_folders_spec glob doc_folders) as (Hiff & Hnin & Hlen).
  destruct (document_folders glob doc_folders) as [events finished]. cbn [fst snd] in *.
  destruct finished; cbn [fst snd]; split_and!; try done.
  intros _. exists events. split; [done|].
  specialize (Hlen eq_refl). simpl in Hlen. lia.
Qed.

End Igm.

(** ** The statements at the example installation *)

Import Examples.

(** C4.  On a module that declares two dependencies, both installed in the
    [preproc] namespace, the expansion appends the first one only: the second
    is found by the loader and then dropped by the [[0]] subscript. *)
Theorem add_dependencies_drops_second_dependency :
  mod_dependencies mod_E = Some ["D1"; "D2"]
  /\ outcome (load_modules_from_directory env igm_dir ["D1"; "D2"] "preproc")
     = inr [mod_D1; mod_D2]
  /\ outcome (add_dependencies env igm_dir insertion_order [mod_E])
     = inr [mod_E; mod_D1]
  /\ ~ In mod_D2 [mod_E; mod_D1].
Proof.
  split_and!; try reflexivity.
  intros [H|[H|[]]]; discriminate H.
Qed.

(** An empty dependency list makes the same subscript raise [IndexError]. *)
Lemma add_dependencies_empty_list_raises (module : Module) rest :
  mod_dependencies module = Some [] ->
  outcome (add_dependencies env igm_dir insertion_order (module :: rest))
  = inl IndexError.
Proof.
  intros H. by rewrite add_dependencies_outcome, dependencies_loop_cons, H.
Qed.

(** A module exposing the four names of the specification is rejected: the
    check asks for [params], not [register_params]. *)
Lemma spec_names_fail_validation :
  (forall f, In f ["register_params"; "initialize"; "update"; "finalize"]
             -> hasattr mod_spec_names f = true)
  /\ validate_module mod_spec_names
     = ([], inl (AttributeError (missing_function_msg mod_spec_names "params")
                                custom_modules_hint)).
Proof.
  split; [|reflexivity].
  intros f [<-|[<-|[<-|[<-|[]]]]]; reflexivity.
Qed.

(** A dependency installed in the [process] namespace and present in the
    working directory is taken from the working directory: the [preproc]
    attempt falls back to it before the [process] namespace is tried. *)
Lemma dependency_taken_from_working_directory :
  env_cwd (framework_path "process" "D") = Some mod_D
  /\ imports (trace (add_dependencies env_cwd igm_dir insertion_order [mod_B]))
     = ["igm.modules.preproc.D"; "D"]
  /\ outcome (add_dependencies env_cwd igm_dir insertion_order [mod_B])
     = inr [mod_B; mod_D_cwd]
  /\ mod_D_cwd <> mod_D.
Proof. split_and!; try reflexivity. discriminate. Qed.

(** With the empty name both imports fail, the first with
    [ModuleNotFoundError], and what the loader raises is the [ValueError]
    of the second, not a [ModuleNotFoundError]. *)
Lemma empty_name_raises_value_error :
  env_raising "igm.modules.preproc."
  = inl (ModuleNotFoundError "No module named 'igm.modules.preproc.'")
  /\ imports (trace (load_modules_from_directory_raising igm_dir env_raising
                       [""] "preproc"))
     = ["igm.modules.preproc."; ""]
  /\ outcome (load_modules_from_directory_raising igm_dir env_raising
                [""] "preproc")
     = inl (ValueError "Empty module name")
  /\ (forall msg, outcome (load_modules_from_directory_raising igm_dir env_raising
                             [""] "preproc")
                  <> inl (ModuleNotFoundError msg)).
Proof.
  split; [reflexivity|]. split; [reflexivity|]. split; [reflexivity|].
  intros msg. discriminate.
Qed.

(** A dependency that the pipeline already lists is appended again. *)
Lemma listed_dependency_appears_twice :
  outcome (load_modules env igm_dir (mkModulesDict [] ["B"; "B2"; "D"] []))
  = inr [mod_B; mod_B2; mod_D]
  /\ mod_B <> mod_B2
  /\ mod_dependencies mod_B = Some ["D"]
  /\ mod_dependencies mod_B2 = Some ["D"]
  /\ outcome (add_dependencies env igm_dir insertion_order [mod_B; mod_B2; mod_D])
     = inr [mod_B; mod_B2; mod_D; mod_D]
  /\ count_occ Module_eq_dec [mod_B; mod_B2; mod_D; mod_D] mod_D = 2.
Proof. split_and!; try reflexivity. discriminate. Qed.

(** Without [check_if_params_exist] an unregistered key prints nothing. *)
Lemma unchecked_override_prints_no_warning :
  dict_get "bogus" config = Some (JBool true)
  /\ registered !! "bogus" = None
  /\ (exists ns, outcome (parse_args registered) = inr ns
                 /\ ns !! "working_dir" = Some (JStr "run"))
  /\ trace (overide_from_json_file (loads config) registered false []) = []
  /\ exists parser',
      outcome (overide_from_json_file (loads config) registered false [])
      = inr parser'.
Proof.
  split_and!; try reflexivity.
  - eexists. split; reflexivity.
  - eexists. reflexivity.
Qed.

(** A [//] inside a line is left alone; the two comment lines go. *)
Lemma remove_comments_keeps_inner_slashes :
  Text.remove_comments
    (Text.join_lines [Text.of_string "{";
                      Text.of_string "   // working directory";
                      Text.of_string "  url: http://igm";
                      Text.of_string "# gpu";
                      Text.of_string "}"])
  = Text.join_lines [Text.of_string "{";
                     Text.of_string "  url: http://igm";
                     Text.of_string "}"].
Proof. reflexivity. Qed.

(** *** Instances of the general statements *)

Lemma load_modules_concatenates_witness :
  outcome (load_modules env igm_dir pipeline_ABC) = inr [mod_A; mod_B; mod_C].
Proof.
  refine (proj2 (load_modules_concatenates env igm_dir pipeline_ABC
                   [mod_A] [mod_B] [mod_C] _ _ _) _);
    try (repeat constructor); reflexivity.
Defined.

Lemma validate_module_required_functions_witness :
  validate_module mod_A = ([], inr tt)
  /\ validate_module mod_half
     = ([], inl (AttributeError
                   "Module <module 'half'> is missing the required function (finalize). If it is a custom python package, make sure to include it in the __init__.py file."
                   "Please see https://github.com/jouvetg/igm/wiki/5.-Custom-modules-(coding) for more information on how to construct custom modules.")).
Proof.
  split.
  - apply (proj1 (proj2 (validate_module_required_functions mod_A))).
    intros f [<-|[<-|[<-|[<-|[]]]]]; reflexivity.
  - apply (proj1 (proj2 (proj2 (validate_module_required_functions mod_half)))
             ["params"; "initialize"] "finalize" ["update"]).
    + reflexivity.
    + intros g [<-|[<-|[]]]; simpl; tauto.
    + simpl. intros [H|[H|[]]]; discriminate.
Defined.

Lemma remove_comments_drops_exactly_comment_lines_witness :
  Text.remove_comments
    (CommentSpec.text_of_lines
       [Text.of_string "{"; Text.of_string "  // the grid";
        Text.of_string "  url: http://igm # kept";
        Text.of_string "# done"; Text.of_string "}"])
  = CommentSpec.text_of_lines
      [Text.of_string "{"; Text.of_string "  url: http://igm # kept";
       Text.of_string "}"]
  /\ Text.remove_comments
       (CommentSpec.text_of_lines
          [Text.of_string "{"; Text.of_string "  url: http://igm // kept"])
     = CommentSpec.text_of_lines
         [Text.of_string "{"; Text.of_string "  url: http://igm // kept"].
Proof.
  split.
  - apply (proj1 (proj2 (proj2 remove_comments_drops_exactly_comment_lines))
             [Text.of_string "{"; Text.of_string "  // the grid";
              Text.of_string "  url: http://igm # kept";
              Text.of_string "# done"; Text.of_string "}"]).
    + discriminate.
    + repeat constructor; vm_compute; intuition discriminate.
  - apply (proj2 (proj2 (proj2 remove_comments_drops_exactly_comment_lines))).
    + discriminate.
    + repeat constructor; vm_compute; intuition discriminate.
    + constructor; [|constructor; [|constructor]].
      * exists [], 123%N, []. split; [reflexivity|].
        split; [constructor|]. split; [|split; discriminate].
        vm_compute. intuition discriminate.
      * exists [32; 32]%N, 117%N, (Text.of_string "rl: http://igm // kept").
        split; [reflexivity|].
        split; [repeat constructor; vm_compute; tauto|].
        split; [|split; discriminate].
        vm_compute. intuition discriminate.
Defined.

Lemma import_named_search_order_witness :
  outcome (load_modules_from_directory_raising igm_dir env_raising
             ["B"; "missing"; "D"] "process")
  = inl (ModuleNotFoundError
           "Can not find module missing. Make sure it is either in the 1) /opt/igm/modules/process directory or 2) in your current working directory.")
  /\ outcome (load_modules_from_directory_raising igm_dir env_raising
                ["B"; "broken"; "D"] "process")
     = inl (KeyError "HOME")
  /\ import_named_raising igm_dir (import_module_outcome env) "process" "D"
     = import_named env igm_dir "process" "D".
Proof.
  split; [|split].
  - refine (proj1 (proj2 (proj2 (proj2
              (import_named_search_order env igm_dir env_raising "process" "missing"))))
              ["B"] [mod_B] ["D"] _ _ _ _).
    + repeat constructor.
    + constructor; [|constructor].
      intros f [<-|[<-|[<-|[<-|[]]]]]; simpl; tauto.
    + reflexivity.
  - refine (proj1 (proj2 (proj2 (proj2
              (import_named_search_order env igm_dir env_raising "process" "broken"))))
              ["B"] [mod_B] ["D"] _ _ _ _).
    + repeat constructor.
    + constructor; [|constructor].
      intros f [<-|[<-|[<-|[<-|[]]]]]; simpl; tauto.
    + reflexivity.
  - apply (proj2 (proj2 (proj2 (proj2
             (import_named_search_order env igm_dir env_raising "process" "D"))))).
    + discriminate.
    + reflexivity.
Defined.

Lemma add_dependencies_keeps_prefix_witness :
  firstn 1 [mod_B; mod_D] = [mod_B] /\ exists deps, [mod_B; mod_D] = [mod_B] ++ deps.
Proof.
  apply (add_dependencies_keeps_prefix env igm_dir insertion_order [mod_B] [mod_B; mod_D]).
  reflexivity.
Defined.

Lemma shared_dependency_added_once_witness :
  count_occ Module_eq_dec (skipn 2 [mod_B; mod_B2; mod_D]) mod_D = 1
  /\ count_occ Module_eq_dec [mod_B; mod_B2; mod_D] mod_D
     = count_occ Module_eq_dec [mod_B; mod_B2] mod_D + 1.
Proof.
  refine (shared_dependency_added_once env igm_dir insertion_order
            (fun s => Permutation_refl s)
            [mod_B; mod_B2] [mod_B; mod_B2; mod_D] mod_B mod_B2 mod_D "D"
            _ _ _ _ _ _ _).
  - left. reflexivity.
  - right. left. reflexivity.
  - discriminate.
  - reflexivity.
  - reflexivity.
  - reflexivity.
  - reflexivity.
Defined.

Lemma time_step_aborts_witness :
  overide_from_json_file (loads config_deprecated) registered true []
  = ([EvPrint " ------- CHECK THE WIKI TO CHANGE YOUR PARAM FILE AND USER MODULES -------------"],
     inl (SystemExit "WARNING: the parameter time_step is deprecated, UPDATE you params.json file"))
  /\ run_setup env igm_dir insertion_order (loads config_deprecated)
       example_int example_str2bool true [] pipeline_ABC
     = ([EvPrint " ------- CHECK THE WIKI TO CHANGE YOUR PARAM FILE AND USER MODULES -------------"],
        inl (SystemExit "WARNING: the parameter time_step is deprecated, UPDATE you params.json file")).
Proof.
  pose proof (time_step_aborts env igm_dir insertion_order (loads config_deprecated)
                registered true []) as (H1 & H2 & _).
  split.
  - refine (H1 _ "run" config_deprecated [JStr "iceflow"; JStr "time_step"] _ _ _ _ _).
    + reflexivity.
    + reflexivity.
    + reflexivity.
    + reflexivity.
    + right. left. reflexivity.
  - refine (H2 example_int example_str2bool pipeline_ABC config_deprecated
              [JStr "iceflow"; JStr "time_step"] _ _ _).
    + reflexivity.
    + reflexivity.
    + right. left. reflexivity.
Defined.

Lemma overrides_only_registered_witness :
  exists parser',
    overide_from_json_file (loads config) registered true []
    = ([EvPrint "WARNING: the following parameters of the json file do not exist in igm:  bogus"],
       inr parser')
    /\ dom parser' = dom registered
    /\ parser' !! "gpu" = Some (mkAction (JNum "1") example_int false)
    /\ parser' !! "bogus" = None.
Proof.
  destruct (overrides_only_registered (loads config) registered true [] _ "run" config
              (JArr [JStr "iceflow"]) eq_refl eq_refl eq_refl
              ltac:(repeat constructor; simpl; intuition discriminate)
              eq_refl eq_refl)
    as (parser' & Hrun & Hdom & Hlook).
  exists parser'. split_and!.
  - exact Hrun.
  - exact Hdom.
  - by rewrite Hlook.
  - by rewrite Hlook.
Defined.


(** *** Instances of the further properties *)

Lemma is_comment_line_indent_witness :
  Text.is_comment_line ([32; 9]%N ++ Text.of_string "# gpu")
  = Text.is_comment_line (Text.of_string "# gpu").
Proof.
  apply (is_comment_line_indent [32; 9]%N (Text.of_string "# gpu")).
  repeat constructor.
Defined.

Lemma load_modules_pipeline_valid_witness :
  Forall (fun m => valid m = true) [mod_A; mod_B; mod_C]
  /\ length [mod_A; mod_B; mod_C]
     = length (modules_preproc pipeline_ABC) + length (modules_process pipeline_ABC)
       + length (modules_postproc pipeline_ABC).
Proof.
  apply (load_modules_pipeline_valid env igm_dir pipeline_ABC [mod_A; mod_B; mod_C]).
  reflexivity.
Defined.

Lemma add_dependencies_appends_valid_witness :
  Forall (fun x => valid x = true /\ dependency_of env [mod_B] x)
         (skipn (length [mod_B]) [mod_B; mod_D]).
Proof.
  apply (add_dependencies_appends_valid env igm_dir insertion_order
           (fun s => Permutation_refl s) [mod_B] [mod_B; mod_D]).
  reflexivity.
Defined.

Lemma add_dependencies_length_witness :
  length [mod_B; mod_B2; mod_D]
  <= length [mod_B; mod_B2] + length (List.filter has_dependencies [mod_B; mod_B2]).
Proof.
  apply (add_dependencies_length env igm_dir insertion_order
           (fun s => Permutation_refl s) [mod_B; mod_B2] [mod_B; mod_B2; mod_D]).
  reflexivity.
Defined.

Lemma add_dependencies_appends_distinct_witness :
  List.NoDup (skipn (length [mod_B; mod_B2]) [mod_B; mod_B2; mod_D]).
Proof.
  apply (add_dependencies_appends_distinct env igm_dir insertion_order
           (fun s => Permutation_refl s) [mod_B; mod_B2] [mod_B; mod_B2; mod_D]).
  reflexivity.
Defined.

Lemma add_dependencies_none_witness :
  add_dependencies env igm_dir insertion_order [mod_A; mod_C]
  = ([], inr [mod_A; mod_C]).
Proof.
  apply (add_dependencies_none env igm_dir insertion_order
           (fun s => Permutation_refl s) [mod_A; mod_C]).
  repeat constructor.
Defined.

Lemma add_dependencies_empty_list_witness :
  outcome (add_dependencies env igm_dir insertion_order ([mod_A] ++ mod_F :: [mod_C]))
  = inl IndexError.
Proof.
  apply (add_dependencies_empty_list env igm_dir insertion_order
           [mod_A] [mod_C] mod_F [mod_A]); reflexivity.
Defined.

(** [D] is installed in [process] only and [D1] in [preproc] only: no
    category resolves both, so the list adds nothing. *)
Lemma search_directories_whole_list_witness :
  outcome (search_directories env igm_dir ["D"; "D1"] directories_to_search [])
  = inr [].
Proof.
  apply (search_directories_whole_list env igm_dir ["D"; "D1"] []).
  intros d n m [<-|[<-|[<-|[]]]] [<-|[<-|[]]] H; vm_compute in H;
    first [discriminate H | injection H as <-; reflexivity].
Defined.

Lemma overide_exceptions_witness :
  exists e,
    outcome (overide_from_json_file (loads config_no_lists) registered true []) = inl e
    /\ e = KeyError "modules_process".
Proof.
  exists (KeyError "modules_process"). split; [reflexivity|].
  exact (overide_exceptions (loads config_no_lists) registered true []
           (KeyError "modules_process") eq_refl).
Defined.

Lemma overide_idempotent_witness :
  outcome (overide_from_json_file (loads config)
             (set_defaults registered (registered_entries registered config))
             false [])
  = inr (set_defaults registered (registered_entries registered config))
  /\ trace (overide_from_json_file (loads config)
              (set_defaults registered (registered_entries registered config))
              true [])
     = trace (overide_from_json_file (loads config) registered true []).
Proof.
  refine (overide_idempotent (loads config) registered
            (set_defaults registered (registered_entries registered config))
            true false [] _ "run" _ _ _); reflexivity.
Defined.

Lemma get_modules_list_keys_witness :
  get_modules_list (loads config_lists) (fun _ => 0%N) []
  = inr [("modules_preproc", JArr [JStr "A"]);
         ("modules_process", JArr [JStr "B"]);
         ("modules_postproc", JArr [JStr "C"])]
  /\ exists k,
       get_modules_list (loads config_no_lists) (fun _ => 0%N) []
       = inl (Raised (KeyError k))
       /\ dict_get k config_no_lists = None.
Proof.
  split; [reflexivity|].
  destruct (proj2 (proj2 (get_modules_list_keys (loads config_no_lists)
                            (fun _ => 0%N) [] config_no_lists eq_refl))
              (Raised (KeyError "modules_preproc")) eq_refl)
    as (k & Hk & _ & Hnone).
  exists k. split; [|exact Hnone]. by rewrite <- Hk.
Defined.

Lemma module_lists_agree_witness :
  is_Some (dict_get "modules_process"
             [("modules_preproc", JArr [JStr "A"]);
              ("modules_process", JArr [JStr "B"]);
              ("modules_postproc", JArr [JStr "C"])])
  /\ act_default
       <$> set_defaults registered (registered_entries registered config_lists)
             !! "modules_process"
     = dict_get "modules_process"
         [("modules_preproc", JArr [JStr "A"]);
          ("modules_process", JArr [JStr "B"]);
          ("modules_postproc", JArr [JStr "C"])].
Proof.
  refine (module_lists_agree (loads config_lists) (fun _ => 0%N) registered _ true []
            config_lists _ "modules_process" _ _ _ _ _ _).
  - reflexivity.
  - repeat constructor; simpl; intuition discriminate.
  - reflexivity.
  - reflexivity.
  - right. left. reflexivity.
  - apply elem_of_dom. eexists. reflexivity.
Defined.

Lemma core_override_follows_file_witness :
  dom (set_defaults (params_core example_int example_str2bool)
         (registered_entries (params_core example_int example_str2bool) config_lists))
  = dom (params_core example_int example_str2bool)
  /\ forall key, In key module_list_keys ->
       act_default
         <$> set_defaults (params_core example_int example_str2bool)
               (registered_entries (params_core example_int example_str2bool)
                  config_lists) !! key
       = dict_get key
           [("modules_preproc", JArr [JStr "A"]);
            ("modules_process", JArr [JStr "B"]);
            ("modules_postproc", JArr [JStr "C"])].
Proof.
  refine (core_override_follows_file (loads config_lists) example_int
            example_str2bool (fun _ => 0%N) _ true []
            config_lists _ _ _ _ _).
  - reflexivity.
  - repeat constructor; simpl; intuition discriminate.
  - reflexivity.
  - reflexivity.
Defined.

Lemma add_logger_cleanup_witness :
  (exists pre,
     add_logger (fun _ => Some "20") (fun _ _ => None) "run" "igm.log" "INFO"
     = ([SysBasicConfig (pre +:+ "igm.log") "20";
         SysGetLogger "my_logger";
         SysCommand ("echo rm " +:+ (pre +:+ "igm.log") +:+ " >> clean.sh")],
        None))
  /\ (exists pre,
        add_logger (fun _ => Some "<function info>") (fun _ _ => Some TypeError)
          "run" "igm.log" "info"
        = ([SysBasicConfig (pre +:+ "igm.log") "<function info>"],
           Some (BasicConfigRaised TypeError))).
Proof.
  split.
  - apply (proj2 (add_logger_cleanup (fun _ => Some "20") (fun _ _ => None)
                    "run" "igm.log" "INFO") "20").
    + reflexivity.
    + discriminate.
  - apply (proj2 (add_logger_cleanup (fun _ => Some "<function info>")
                    (fun _ _ => Some TypeError) "run" "igm.log" "info")
             "<function info>").
    + reflexivity.
    + discriminate.
Defined.

Lemma stem_of_module_file_witness :
  stem ("../igm/modules/preproc" +:+ "/" +:+ "oggm_shop" +:+ "." +:+ "py")
  = "oggm_shop".
Proof.
  apply (stem_of_module_file "../igm/modules/preproc" "oggm_shop" "py");
    reflexivity.
Defined.
